(** * libws: connection handlers, backoff and rotation

    A shallow embedding of the handler layer of the libws WebSocket client
    (conn_reconnect_retry_backoff.go, the reopen-interval handler, the two
    keep-alive decorators, the dial-error classification of the transport and
    the message and error values they exchange), with the properties the
    specification states about them. *)

From Stdlib Require Import ZArith List Bool String Lia.
From Stdlib Require Import Floats.SpecFloat.
Import ListNotations.
Local Open Scope Z_scope.

(** ** Machine integers and durations *)

Module Int64.

Definition modulus : Z := 2 ^ 64.
Definition max_int : Z := 2 ^ 63 - 1.
Definition min_int : Z := - 2 ^ 63.

(** Go's signed 64-bit arithmetic wraps around on overflow. *)
Definition wrap (z : Z) : Z := (z + 2 ^ 63) mod modulus - 2 ^ 63.

Definition add (a b : Z) : Z := wrap (a + b).
Definition mul (a b : Z) : Z := wrap (a * b).
Definition in_range (z : Z) : bool := (min_int <=? z) && (z <=? max_int).

End Int64.

(** time.Duration is an int64 count of nanoseconds. *)
Definition Duration := Z.
Definition Second : Duration := 1000000000.

(** ** errors.go and the error values of github.com/pkg/errors *)

(** The four sentinels are package-level values compared by identity; any
    other leaf error is [errors_New]; [withMessage] is what [errors.Wrap]
    builds around a cause. *)
Inductive error : Type :=
| ErrConnectionClosed
| ErrCannotConnect
| ErrTerminated
| ErrRateLimit
| errors_New (text : string)
| withMessage (cause : error) (msg : string).

Fixpoint error_eqb (a b : error) : bool :=
  match a, b with
  | ErrConnectionClosed, ErrConnectionClosed => true
  | ErrCannotConnect, ErrCannotConnect => true
  | ErrTerminated, ErrTerminated => true
  | ErrRateLimit, ErrRateLimit => true
  | errors_New s, errors_New t => String.eqb s t
  | withMessage c s, withMessage d t => error_eqb c d && String.eqb s t
  | _, _ => false
  end.

(** [err.Error()]. *)
Fixpoint Error (e : error) : string :=
  match e with
  | ErrConnectionClosed => "connection has been closed"
  | ErrCannotConnect => "connection cannot be established"
  | ErrTerminated => "program exit"
  | ErrRateLimit => "rate limit exceeded"
  | errors_New s => s
  | withMessage c m => m ++ ": " ++ Error c
  end%string.

(** [errors.Wrap(err, msg)]: nil stays nil. *)
Definition errors_Wrap (err : option error) (msg : string) : option error :=
  match err with
  | None => None
  | Some e => Some (withMessage e msg)
  end.

(** [errors.Is] on a non-nil error: compare, then unwrap and repeat. *)
Fixpoint Is_chain (e target : error) : bool :=
  error_eqb e target ||
  match e with
  | withMessage c _ => Is_chain c target
  | _ => false
  end.

(** [errors.Is(err, target)] for a non-nil target. *)
Definition errors_Is (err : option error) (target : error) : bool :=
  match err with
  | None => false
  | Some e => Is_chain e target
  end.

(** ** message.go *)

Definition MessageType := Z.

Definition PingMessage : MessageType := 9.
Definition PongMessage : MessageType := 10.
Definition BinaryMessage : MessageType := 2.
Definition DataMessage : MessageType := 1.
Definition CloseError : MessageType := 8.

Definition MessageType_Is (t other : MessageType) : bool := t =? other.
Definition IsData (t : MessageType) : bool := MessageType_Is t DataMessage.
Definition IsPong (t : MessageType) : bool := MessageType_Is t PongMessage.
Definition IsClose (t : MessageType) : bool := MessageType_Is t CloseError.

Record message : Type := mkMessage
  { MessageType_ : MessageType;
    MessageData : list Byte.byte }.

(** The [Message] interface has two implementations. *)
Inductive Message : Type :=
| plainMessage (m : message)
| closeMessage (m : message) (Code : Z).

Definition Type_ (m : Message) : MessageType :=
  match m with
  | plainMessage m => MessageType_ m
  | closeMessage m _ => MessageType_ m
  end.

Definition Data (m : Message) : list Byte.byte :=
  match m with
  | plainMessage m => MessageData m
  | closeMessage m _ => MessageData m
  end.

Definition NewMessage (mt : MessageType) (data : list Byte.byte) : Message :=
  plainMessage (mkMessage mt data).
Definition NewDataMessage := NewMessage DataMessage.
Definition NewBinaryMessage := NewMessage BinaryMessage.
Definition NewPingMessage := NewMessage PingMessage.
Definition NewPongMessage := NewMessage PongMessage.
Definition NewCloseMessage (code : Z) (data : list Byte.byte) : Message :=
  closeMessage (mkMessage CloseError data) code.

(** ** The default backoff calculator *)

Module Float64.

Definition prec : Z := 53.
Definition emax : Z := 1024.

Definition float64 := spec_float.

(** [float64(n)] for an integer [n]: rounded to nearest, ties to even. *)
Definition of_int (n : Z) : float64 := binary_normalize prec emax n 0 false.

(** [math.Pow(2.0, y)] for an integral [y]: the power of two itself, which
    [binary_normalize] turns into +Inf above the exponent range and into a
    subnormal or zero below it. *)
Definition pow2 (y : Z) : float64 := binary_normalize prec emax 1 y false.

Definition sub : float64 -> float64 -> float64 := SFsub prec emax.
Definition div : float64 -> float64 -> float64 := SFdiv prec emax.

(** The integral value of [y] when [y] is a finite float holding one. *)
Definition integral (y : float64) : option Z :=
  match y with
  | S754_zero _ => Some 0
  | S754_finite s m e =>
      if 0 <=? e then Some (cond_Zopp s (Z.pos m * 2 ^ e)) else
      if (Z.pos m) mod 2 ^ (- e) =? 0
      then Some (cond_Zopp s (Z.pos m / 2 ^ (- e))) else None
  | _ => None
  end.

(** [math.Pow(2.0, y)], on the arguments this package passes. *)
Definition Pow_two (y : float64) : option float64 :=
  match integral y with
  | Some k => Some (pow2 k)
  | None => None
  end.

(** Conversion to int64 discards the fraction (truncation towards zero);
    Go leaves the result of an out-of-range conversion to the
    implementation, which is [None] here. *)
Definition to_int64 (x : float64) : option Z :=
  match x with
  | S754_zero _ => Some 0
  | S754_finite s m e =>
      let mag := if 0 <=? e then Z.pos m * 2 ^ e else Z.pos m / 2 ^ (- e) in
      let v := cond_Zopp s mag in
      if Int64.in_range v then Some v else None
  | _ => None
  end.

End Float64.

(** [ExponentialBackoff]: [(math.Pow(2.0, float64(attempts)) - 1) / 2]. *)
Definition ExponentialBackoff (attempts : Z) : option Float64.float64 :=
  match Float64.Pow_two (Float64.of_int attempts) with
  | Some p =>
      Some (Float64.div (Float64.sub p (Float64.of_int 1)) (Float64.of_int 2))
  | None => None
  end.

(** [ExponentialBackoffSeconds]:
    [time.Duration(ExponentialBackoff(attempts)) * time.Second]. *)
Definition ExponentialBackoffSeconds (attempts : Z) : option Duration :=
  match ExponentialBackoff attempts with
  | Some x =>
      match Float64.to_int64 x with
      | Some d => Some (Int64.mul d Second)
      | None => None
      end
  | None => None
  end.

(** ** The world the handlers act on *)

(** Inner handlers are objects behind the [ConnectionHandler] interface. A
    handler is identified by the order in which the inner factory produced
    it, and every call made on one is recorded, in order, in the trace. *)
Definition HandlerId := nat.

(** Modelled from the spec: the [EventType] constants, whose declaration is
    not among the sources. The spec lists the event kinds Connect, Reconnect
    and Close. *)
Inductive EventType : Type := EventConnect | EventReconnect | EventClose.

Inductive task : Type :=
| task_run                       (* go h.run(ctx) *)
| task_Emit (e : EventType).     (* go b.emitter.Emit(e, e) *)

Inductive event : Type :=
| EFactory (h : HandlerId)                       (* the factory returned h *)
| EConnect (h : HandlerId) (r : option error)    (* h.Connect(ctx) = r *)
| EClose (h : HandlerId)                         (* h.Close() *)
| ESend (h : HandlerId) (m : Message)            (* h.Send(m) *)
| ERecv (h : HandlerId) (m : Message)            (* h.Recv(m) *)
| ESleep (d : Duration)                          (* time.Sleep(d) *)
| EGo (t : task)                                 (* go ... *)
| ELock                                          (* innerMu.Lock() *)
| EUnlock                                        (* innerMu.Unlock() *)
| ESetInner (h : HandlerId).                     (* b.inner = h *)

Record World : Type := mkWorld
  { trace : list event;      (* oldest first *)
    created : nat;           (* handlers produced by the factory so far *)
    now : Z }.               (* the clock, in nanoseconds *)

(** Outcome of an operation that may block its caller or panic. *)
Inductive result (A : Type) : Type :=
| Ok (a : A)
| Blocks
| Panics.
Arguments Ok {A} a.
Arguments Blocks {A}.
Arguments Panics {A}.

Module WorldMonad.

Definition M (A : Type) : Type := World -> A * World.

Definition ret {A} (a : A) : M A := fun w => (a, w).

Definition bind {A B} (c : M A) (k : A -> M B) : M B :=
  fun w => let '(a, w') := c w in k a w'.

Definition emit (e : event) : M unit :=
  fun w => (tt, mkWorld (trace w ++ [e]) (created w) (now w)).

Definition get_now : M Z := fun w => (now w, w).

End WorldMonad.
Import WorldMonad.

Declare Scope world_scope.
Delimit Scope world_scope with world.
Notation "x <- c ;; k" := (bind c (fun x => k))
  (at level 61, c at next level, right associativity) : world_scope.
Notation "c ;;; k" := (bind c (fun _ => k))
  (at level 61, right associativity) : world_scope.
Local Open Scope world_scope.

Section Handlers.

(** What the inner handler factory's products answer: the result of
    [Connect] on the handler with a given identity (the mock's
    [ConnectFunc]). *)
Variable ConnectFunc : HandlerId -> option error.

(** [connHandlerFactory(client, handler, emitter)]. *)
Definition connHandlerFactory : M HandlerId :=
  fun w => (created w, mkWorld (trace w ++ [EFactory (created w)])
                               (S (created w)) (now w)).

Definition inner_Connect (h : HandlerId) : M (option error) :=
  emit (EConnect h (ConnectFunc h)) ;;; ret (ConnectFunc h).

Definition inner_Close (h : HandlerId) : M unit := emit (EClose h).
Definition inner_Send (h : HandlerId) (m : Message) : M unit := emit (ESend h m).
Definition inner_Recv (h : HandlerId) (m : Message) : M unit := emit (ERecv h m).

(** [time.Sleep(d)] returns at once for a non-positive [d]. *)
Definition time_Sleep (d : Duration) : M unit :=
  fun w => (tt, mkWorld (trace w ++ [ESleep d]) (created w)
                        (now w + Z.max 0 d)).

(** *** conn_keep_alive_passive.go *)

Definition PassiveKeepAliveHandler := HandlerId -> Message -> M unit.

Record passiveKeepAliveConnectionHandler : Type := mkPassive
  { passive_inner : HandlerId;
    passive_handler : PassiveKeepAliveHandler }.

Definition newPassiveKeepAliveConnectionHandler
    (c : HandlerId) (h : PassiveKeepAliveHandler) :=
  mkPassive c h.

Definition passive_Recv (h : passiveKeepAliveConnectionHandler) (m : Message)
  : M unit :=
  passive_handler h (passive_inner h) m ;;;
  inner_Recv (passive_inner h) m.

Definition KeepAliveHandlerReplyPingWithPong : PassiveKeepAliveHandler :=
  fun ch m =>
    if Type_ m =? PingMessage
    then inner_Send ch (NewPongMessage (Data m))
    else ret tt.

(** *** The active keep-alive handler *)

Record activeKeepAliveConnectionHandler : Type := mkActive
  { active_inner : HandlerId;
    pingInterval : Duration;
    connectOnce : bool;          (* the sync.Once has run *)
    active_closeOnce : bool;
    active_closeC : bool }.      (* the channel has been closed *)

Definition newActiveKeepAliveConnectionHandler
    (ch : HandlerId) (interval : Duration) :=
  mkActive ch interval false false false.

(** [Connect]: the body runs under [connectOnce.Do]; the named result [err]
    keeps its zero value when the body is skipped. *)
Definition active_Connect (h : activeKeepAliveConnectionHandler)
  : M (option error * activeKeepAliveConnectionHandler) :=
  if connectOnce h then ret (None, h)
  else
    err <- inner_Connect (active_inner h) ;;
    emit (EGo task_run) ;;;
    ret (err, mkActive (active_inner h) (pingInterval h) true
                       (active_closeOnce h) (active_closeC h)).

Definition active_Close (h : activeKeepAliveConnectionHandler)
  : M activeKeepAliveConnectionHandler :=
  if active_closeOnce h then ret h
  else
    inner_Close (active_inner h) ;;;
    ret (mkActive (active_inner h) (pingInterval h) (connectOnce h) true true).

(** *** conn_reconnect_retry_backoff.go *)

Variable calculator : Z -> Duration.
Variable connDurationThreshold : Duration.

(** Capacity of the [send] and [recv] channels. *)
Definition chanCap : nat := 32.

Record backoffConnectionHandler : Type := mkBackoff
  { inner : option HandlerId;        (* nil until Connect assigns it *)
    closeC : bool;                   (* the channel has been closed *)
    closeOnce : bool;
    closeReason : option error;
    send : list Message;             (* buffered, oldest first *)
    recv : list Message }.

Definition newBackoffConnectionHandler : backoffConnectionHandler :=
  mkBackoff None false false None [] [].

Definition with_inner (b : backoffConnectionHandler) (h : HandlerId) :=
  mkBackoff (Some h) (closeC b) (closeOnce b) (closeReason b) (send b) (recv b).
Definition with_closeReason (b : backoffConnectionHandler) (r : option error) :=
  mkBackoff (inner b) (closeC b) (closeOnce b) r (send b) (recv b).
Definition with_send (b : backoffConnectionHandler) (q : list Message) :=
  mkBackoff (inner b) (closeC b) (closeOnce b) (closeReason b) q (recv b).
Definition with_recv (b : backoffConnectionHandler) (q : list Message) :=
  mkBackoff (inner b) (closeC b) (closeOnce b) (closeReason b) (send b) q.
Definition with_closed (b : backoffConnectionHandler) :=
  mkBackoff (inner b) true true (closeReason b) (send b) (recv b).

(** One pass through the body of the [for] loop of [newConnHandler], from a
    given value of the local [attempts]: the new value of [attempts] and the
    handler returned, or [None] when the body ends in [continue]. *)
Definition newConnHandler_body (attempts : Z) : M (Z * option HandlerId) :=
  let attempts := Int64.add attempts 1 in
  ch <- connHandlerFactory ;;
  err <- inner_Connect ch ;;
  match err with
  | Some _ =>
      if errors_Is err ErrCannotConnect
      then time_Sleep Second ;;; ret (attempts, None)
      else
        let ttw := calculator attempts in
        time_Sleep ttw ;;; ret (attempts, None)
  | None => ret (attempts, Some ch)
  end.

(** The loop itself; [None] when the fuel runs out before a handler
    connects. *)
Fixpoint newConnHandler_loop (fuel : nat) (attempts : Z) (w : World)
  : option (HandlerId * World) :=
  match fuel with
  | O => None
  | S fuel' =>
      match newConnHandler_body attempts w with
      | (_, Some ch, w') => Some (ch, w')
      | (attempts', None, w') => newConnHandler_loop fuel' attempts' w'
      end
  end.

Definition newConnHandler (fuel : nat) : World -> option (HandlerId * World) :=
  newConnHandler_loop fuel 0.

(** The [run] goroutine: where it stands and its local variables. *)
Inductive run_pc : Type :=
| AtSelect                            (* blocked in the select *)
| InNewConnHandler (attempts : Z)     (* repairing, at the top of the loop of
                                         newConnHandler with this local *)
| Returned.

Record run_frame : Type := mkFrame
  { pc : run_pc;
    innerCloseChan : HandlerId;       (* the handler owning the channel *)
    attempts : Z;
    then_ : Z;
    deferred : HandlerId }.           (* receiver of the deferred Close *)

Record system : Type := mkSystem
  { handler : backoffConnectionHandler;
    frame : option run_frame;         (* None: run not spawned *)
    world : World }.

(** The counter update of the repair step, given [b.closeReason] and
    [time.Since(then)]. *)
Definition repair_attempts (reason : option error) (delta : Duration)
    (attempts : Z) : Z :=
  match reason with
  | Some _ =>
      if errors_Is reason ErrConnectionClosed || errors_Is reason ErrTerminated
      then
        if connDurationThreshold <? delta then 0 else Int64.add attempts 1
      else attempts
  | None => attempts
  end.

(** The cases of the select in [run]. That [ctx.Done()] or the inner close
    channel is ready is for the environment to say; the latter comes with
    what [b.inner.CloseErr()] then returns. *)
Inductive select_case : Type :=
| case_ctx_Done
| case_closeC
| case_recv
| case_send
| case_innerCloseChan (closeErr : option error).

(** [Connect]: the first connection is opened synchronously, then [run] is
    spawned; its locals are initialised from [b.inner] and the clock. *)
Definition backoff_Connect (fuel : nat) (b : backoffConnectionHandler)
    (w : World) : option (option error * system) :=
  match newConnHandler fuel w with
  | None => None
  | Some (ch, w1) =>
      let '(_, w2) := emit (EGo task_run) w1 in
      Some (None,
            mkSystem (with_inner b ch)
                     (Some (mkFrame AtSelect ch 0 (now w2) ch))
                     w2)
  end.

(** [Send] and [Recv] are channel sends: they block when the buffer holds
    [chanCap] messages. *)
Definition backoff_Send (b : backoffConnectionHandler) (m : Message)
  : result backoffConnectionHandler :=
  if (List.length (send b) <? chanCap)%nat then Ok (with_send b (send b ++ [m]))
  else Blocks.

Definition backoff_Recv (b : backoffConnectionHandler) (m : Message)
  : result backoffConnectionHandler :=
  if (List.length (recv b) <? chanCap)%nat then Ok (with_recv b (recv b ++ [m]))
  else Blocks.

(** [Close]: under [closeOnce], close [closeC] and the inner handler (a nil
    inner makes the call panic). *)
Definition backoff_Close (b : backoffConnectionHandler) (w : World)
  : result (backoffConnectionHandler * World) :=
  if closeOnce b then Ok (b, w)
  else
    match inner b with
    | Some h => Ok (with_closed b, snd (inner_Close h w))
    | None => Panics
    end.

Definition backoff_CloseErr (b : backoffConnectionHandler) : option error :=
  closeReason b.

(** One turn of the select of [run]. *)
Definition run_select (c : select_case) (b : backoffConnectionHandler)
    (f : run_frame) (w : World)
  : result (backoffConnectionHandler * run_frame * World) :=
  let returns :=
    Ok (b,
        mkFrame Returned (innerCloseChan f) (attempts f) (then_ f) (deferred f),
        snd (inner_Close (deferred f) w)) in
  match c with
  | case_ctx_Done => returns
  | case_closeC => if closeC b then returns else Blocks
  | case_recv =>
      match recv b with
      | [] => Blocks
      | msg :: rest =>
          let b' := with_recv b rest in
          match inner b with
          | Some h => Ok (b', f, snd (inner_Recv h msg w))
          | None => Ok (b', f, w)
          end
      end
  | case_send =>
      match send b with
      | [] => Blocks
      | msg :: rest =>
          let b' := with_send b rest in
          match inner b with
          | Some h => Ok (b', f, snd (inner_Send h msg w))
          | None => Ok (b', f, w)
          end
      end
  | case_innerCloseChan closeErr =>
      match inner b with
      | None => Panics
      | Some h =>
          let w1 := snd (inner_Close h w) in
          let b' := with_closeReason b closeErr in
          let delta := now w1 - then_ f in
          let attempts' := repair_attempts (closeReason b') delta (attempts f) in
          let ttw := calculator attempts' in
          let w2 := snd (time_Sleep ttw w1) in
          Ok (b',
              mkFrame (InNewConnHandler 0) (innerCloseChan f) attempts'
                      (then_ f) (deferred f),
              w2)
      end
  end.

(** One pass of the loop of [newConnHandler] called from [run], and, when it
    returns a handler, the rest of the repair case. *)
Definition run_attempt (a : Z) (b : backoffConnectionHandler) (f : run_frame)
    (w : World) : backoffConnectionHandler * run_frame * World :=
  match newConnHandler_body a w with
  | (a', None, w') =>
      (b, mkFrame (InNewConnHandler a') (innerCloseChan f) (attempts f)
                  (then_ f) (deferred f), w')
  | (_, Some ch, w') =>
      let w'' := snd (emit (EGo (task_Emit EventReconnect)) w') in
      (with_inner b ch,
       mkFrame AtSelect ch (attempts f) (now w') (deferred f), w'')
  end.

(** What can happen to a connected handler: calls from other goroutines,
    progress of [run], and the passing of time. *)
Inductive action : Type :=
| CallSend (m : Message)
| CallRecv (m : Message)
| CallClose
| Select (c : select_case)
| Attempt
| Elapse (d : Duration).

Definition lift_handler (s : system) (r : result backoffConnectionHandler)
  : result system :=
  match r with
  | Ok b => Ok (mkSystem b (frame s) (world s))
  | Blocks => Blocks
  | Panics => Panics
  end.

Definition step (a : action) (s : system) : result system :=
  match a with
  | CallSend m => lift_handler s (backoff_Send (handler s) m)
  | CallRecv m => lift_handler s (backoff_Recv (handler s) m)
  | CallClose =>
      match backoff_Close (handler s) (world s) with
      | Ok (b, w) => Ok (mkSystem b (frame s) w)
      | Blocks => Blocks
      | Panics => Panics
      end
  | Select c =>
      match frame s with
      | Some f =>
          match pc f with
          | AtSelect =>
              match run_select c (handler s) f (world s) with
              | Ok (b, f', w) => Ok (mkSystem b (Some f') w)
              | Blocks => Blocks
              | Panics => Panics
              end
          | _ => Blocks
          end
      | None => Blocks
      end
  | Attempt =>
      match frame s with
      | Some f =>
          match pc f with
          | InNewConnHandler a =>
              let '(b, f', w) := run_attempt a (handler s) f (world s) in
              Ok (mkSystem b (Some f') w)
          | _ => Blocks
          end
      | None => Blocks
      end
  | Elapse d =>
      if 0 <=? d
      then Ok (mkSystem (handler s) (frame s)
                        (mkWorld (trace (world s)) (created (world s))
                                 (now (world s) + d)))
      else Blocks
  end.

Fixpoint exec (acts : list action) (s : system) : result system :=
  match acts with
  | [] => Ok s
  | a :: rest =>
      match step a s with
      | Ok s' => exec rest s'
      | Blocks => Blocks
      | Panics => Panics
      end
  end.

(** *** The reopen-interval handler *)

Record reopenIntervalConnectionHandler : Type := mkReopen
  { reopen_inner : option HandlerId;
    reopen_closeC : bool;
    reopen_closeOnce : bool }.

Definition newReopenIntervalConn : reopenIntervalConnectionHandler :=
  mkReopen None false false.

Definition reopen_with_inner (b : reopenIntervalConnectionHandler)
    (h : HandlerId) :=
  mkReopen (Some h) (reopen_closeC b) (reopen_closeOnce b).

(** One pass through the loop of [newConnectionHandler]: a failed handler is
    closed and the loop continues. *)
Definition newConnectionHandler_body : M (option HandlerId) :=
  conn <- connHandlerFactory ;;
  err <- inner_Connect conn ;;
  match err with
  | Some _ => inner_Close conn ;;; ret None
  | None => ret (Some conn)
  end.

Fixpoint newConnectionHandler (fuel : nat) (w : World)
  : option (HandlerId * World) :=
  match fuel with
  | O => None
  | S fuel' =>
      match newConnectionHandler_body w with
      | (Some conn, w') => Some (conn, w')
      | (None, w') => newConnectionHandler fuel' w'
      end
  end.

(** Locals of the [run] goroutine of the reopen-interval handler. *)
Record reopen_frame : Type := mkReopenFrame
  { connCount : Z;
    closeChan : HandlerId }.

(** [Connect]: no once-guard; every call opens a connection under the write
    lock and spawns [run]. The result is the error returned, the handler and
    the locals of the goroutine spawned. *)
Definition reopen_Connect (fuel : nat) (b : reopenIntervalConnectionHandler)
    (w : World)
  : option (option error * reopenIntervalConnectionHandler * reopen_frame
            * World) :=
  let w1 := snd (emit ELock w) in
  match newConnectionHandler fuel w1 with
  | None => None
  | Some (conn, w2) =>
      let w3 := snd ((emit (ESetInner conn) ;;; emit EUnlock ;;;
                      emit (EGo task_run)) w2) in
      Some (None, reopen_with_inner b conn, mkReopenFrame 0 conn, w3)
  end.

Inductive reopen_case : Type :=
| rcase_ctx_Done
| rcase_ticker
| rcase_closeChan.

(** One turn of the select of [run]; the frame is [None] once [run] has
    returned. The outer [option] is the fuel of [newConnectionHandler]. *)
Definition reopen_run_select (fuel : nat) (c : reopen_case)
    (b : reopenIntervalConnectionHandler) (f : reopen_frame) (w : World)
  : option (result (reopenIntervalConnectionHandler * option reopen_frame
                    * World)) :=
  match c with
  | rcase_ctx_Done => Some (Ok (b, None, w))
  | rcase_ticker =>
      let connCount' := Int64.add (connCount f) 1 in
      match newConnectionHandler fuel w with
      | None => None
      | Some (nextConnectionHandler, w1) =>
          let nextCloseChan := nextConnectionHandler in
          let w2 := snd (emit ELock w1) in
          match reopen_inner b with
          | None => Some Panics
          | Some old =>
              let w3 := snd ((inner_Close old ;;;
                              emit (ESetInner nextConnectionHandler) ;;;
                              emit EUnlock) w2) in
              Some (Ok (reopen_with_inner b nextConnectionHandler,
                        Some (mkReopenFrame connCount' nextCloseChan), w3))
          end
      end
  | rcase_closeChan =>
      let connCount' := Int64.add (connCount f) 1 in
      match newConnectionHandler fuel w with
      | None => None
      | Some (conn, w1) =>
          let w2 := snd ((emit ELock ;;; emit (ESetInner conn) ;;;
                          emit EUnlock) w1) in
          Some (Ok (reopen_with_inner b conn,
                    Some (mkReopenFrame connCount' conn), w2))
      end
  end.

End Handlers.

(** ** The transport: close-reason and dial errors *)

(** The fields of [WsConnection] that [setCloseReason] touches. *)
Record WsConnection : Type := mkWs
  { ws_closeReason : option error;
    closeReasonOnce : bool }.

Definition NewWebsocketConnection : WsConnection := mkWs None false.

(** [setCloseReason]: the assignment runs under [closeReasonOnce.Do]. *)
Definition setCloseReason (w : WsConnection) (err : option error)
  : WsConnection :=
  if closeReasonOnce w then w else mkWs err true.

Definition ws_CloseErr (w : WsConnection) : option error := ws_closeReason w.

(** What [handleDialError] looks at in an [*http.Response]: the status and
    the body, nil or with the outcome of [io.ReadAll] on it. *)
Inductive ReadAll_result : Type :=
| ReadAll_ok (bts : string)
| ReadAll_err.

Record http_Response : Type := mkResponse
  { StatusCode : Z;
    Body : option ReadAll_result }.

Definition StatusTooManyRequests : Z := 429.

(** The [*websocket.Conn] handed to the adapter is opaque here. *)
Definition Conn := option nat.

Definition ErrAdapter := Conn -> option http_Response -> option error
                         -> option error.

Definition handleDialError (OnDial : option ErrAdapter) (conn : Conn)
    (resp : option http_Response) (err : option error) : option error :=
  match OnDial with
  | Some adapter => adapter conn resp err
  | None =>
      (* 2. Network errors *)
      let network :=
        match err with
        | Some e => errors_Wrap (Some ErrCannotConnect) (Error e)
        | None => None
        end in
      (* 1. Check HTTP errors first *)
      match resp with
      | Some r =>
          let msg :=
            match Body r with
            | Some (ReadAll_ok bts) => bts
            | _ => EmptyString
            end in
          if StatusCode r =? StatusTooManyRequests
          then errors_Wrap (Some ErrRateLimit) msg
          else network
      | None => network
      end
  end.

(** ** Observations on traces *)

(** The durations slept, in order. *)
Fixpoint sleeps (tr : list event) : list Duration :=
  match tr with
  | [] => []
  | ESleep d :: rest => d :: sleeps rest
  | _ :: rest => sleeps rest
  end.



(** Events of a handler created at or after [lo] and before [hi]: what the
    failed passes of a connecting loop leave in the trace. *)
Definition attempt_event (lo hi : nat) (e : event) : Prop :=
  match e with
  | EFactory h | EClose h => (lo <= h < hi)%nat
  | EConnect h r => (lo <= h < hi)%nat /\ r <> None
  | ESleep _ => True
  | _ => False
  end.

(** Whether the default calculator returns floor((2^n - 1) / 2) seconds. *)
Definition backoff_agrees (n : Z) : bool :=
  match ExponentialBackoffSeconds n with
  | Some d => d =? (2 ^ n - 1) / 2 * Second
  | None => false
  end.


(** ** Scenarios *)

Module Scenario.

Definition w0 : World := mkWorld [] 0 0.

(** A user-supplied calculator: two seconds per attempt counted. *)
Definition two_seconds_each (attempts : Z) : Duration := attempts * (2 * Second).

Definition boom : error := errors_New "boom".

(** Every handler connects. *)
Definition always_up (h : HandlerId) : option error := None.

(** The first two handlers fail to connect with a generic error. *)
Definition fail_twice (h : HandlerId) : option error :=
  match h with
  | O | S O => Some boom
  | _ => None
  end.

(** The first handler connects, the second does not, the third does. *)
Definition up_down_up (h : HandlerId) : option error :=
  match h with
  | S O => Some boom
  | _ => None
  end.

Definition ping : Message := NewPingMessage [Byte.x01; Byte.x02].

Definition too_many_requests : http_Response :=
  mkResponse StatusTooManyRequests (Some (ReadAll_ok "slow down")).

(** The first handler's dial is answered with HTTP 429. *)
Definition rate_limited_once (h : HandlerId) : option error :=
  match h with
  | O => handleDialError None None (Some too_many_requests)
                         (Some (errors_New "bad handshake"))
  | _ => None
  end.

(** The state in which [Connect] leaves a backoff handler, or the handler
    untouched when the fuel does not suffice. *)
Definition connected (ConnectFunc : HandlerId -> option error)
    (calculator : Z -> Duration) (fuel : nat) : system :=
  match backoff_Connect ConnectFunc calculator fuel
                        newBackoffConnectionHandler w0 with
  | Some (_, s) => s
  | None => mkSystem newBackoffConnectionHandler None w0
  end.

Definition run_of {A} (r : result A) (d : A) : A :=
  match r with Ok a => a | _ => d end.

(** A reopen-interval handler after [Connect], with the world it leaves. *)
Definition reopen_connected (ConnectFunc : HandlerId -> option error)
    (fuel : nat) (b : reopenIntervalConnectionHandler) (w : World)
  : reopenIntervalConnectionHandler * reopen_frame * World :=
  match reopen_Connect ConnectFunc fuel b w with
  | Some (_, b', f, w') => (b', f, w')
  | None => (b, mkReopenFrame 0 0%nat, w)
  end.

(** The events of one scheduled rotation right after [Connect]. *)
Definition first_rotation : list event :=
  let '(b, f, w) := reopen_connected always_up 1 newReopenIntervalConn w0 in
  match reopen_run_select always_up 1 rcase_ticker b f w with
  | Some (Ok (_, _, w')) => skipn (List.length (trace w)) (trace w')
  | _ => []
  end.

(** A healthy-connection threshold of 100 ms. *)
Definition threshold : Duration := 100 * 1000000.

(** A connected backoff handler whose inner handler closes with
    ErrConnectionClosed and is replaced at the first attempt. *)
Definition after_first_repair : result system :=
  exec always_up two_seconds_each threshold
    [Select (case_innerCloseChan (Some ErrConnectionClosed)); Attempt]
    (connected always_up two_seconds_each 1).

(** The replacement then closes with another error. *)
Definition after_second_repair : result system :=
  match after_first_repair with
  | Ok s =>
      exec always_up two_seconds_each threshold
        [Select (case_innerCloseChan (Some boom))] s
  | other => other
  end.



(** [Connect] called a second time on a reopen-interval handler. *)
Definition reopen_second_Connect :=
  let '(b, _, w) := reopen_connected always_up 1 newReopenIntervalConn w0 in
  reopen_Connect always_up 1 b w.

End Scenario.

(** ** event_emitter.go *)

Module Emitter.

Section WithTypes.

(** Keys, the data handed to listeners, and the observable effects of
    running a listener. A listener is known by what a call of it does. *)
Variables K V E : Type.
Variable K_eqb : K -> K -> bool.

Definition callback : Type := V -> list E.

(** The Go map from events to listener slices, as an association list with
    one entry per key. *)
Definition listener_map : Type := list (K * list callback).

Fixpoint map_get (m : listener_map) (k : K) : option (list callback) :=
  match m with
  | [] => None
  | (k', ls) :: rest => if K_eqb k' k then Some ls else map_get rest k
  end.

Fixpoint map_set (m : listener_map) (k : K) (ls : list callback)
  : listener_map :=
  match m with
  | [] => [(k, ls)]
  | (k', ls') :: rest =>
      if K_eqb k' k then (k', ls) :: rest else (k', ls') :: map_set rest k ls
  end.

Record EventEmitterCallback : Type := mkEmitter
  { listeners : listener_map }.

Definition NewEventEmitter : EventEmitterCallback := mkEmitter [].

(** [On]: [e.listeners[event] = append(e.listeners[event], listener)]; a
    missing key reads as the nil slice. *)
Definition On (e : EventEmitterCallback) (event : K) (listener : callback)
  : EventEmitterCallback :=
  let current :=
    match map_get (listeners e) event with
    | Some ls => ls
    | None => []
    end in
  mkEmitter (map_set (listeners e) event (current ++ [listener])).

(** [Emit]: the effects of calling the listeners found, in slice order. *)
Definition Emit (e : EventEmitterCallback) (event : K) (data : V) : list E :=
  match map_get (listeners e) event with
  | None => []
  | Some ls => flat_map (fun listener => listener data) ls
  end.

(** [Close]: the map is replaced by an empty one. *)
Definition Close (e : EventEmitterCallback) : EventEmitterCallback :=
  mkEmitter [].

(** The listeners an emitter holds for an event; none when the key is
    missing. *)
Definition held (e : EventEmitterCallback) (k : K) : list callback :=
  match map_get (listeners e) k with
  | Some ls => ls
  | None => []
  end.

(** A history of calls on one emitter. *)
Inductive op : Type :=
| OpOn (event : K) (listener : callback)
| OpClose.

Definition apply_op (e : EventEmitterCallback) (o : op)
  : EventEmitterCallback :=
  match o with
  | OpOn event listener => On e event listener
  | OpClose => Close e
  end.

Definition run_ops (ops : list op) (e : EventEmitterCallback)
  : EventEmitterCallback :=
  fold_left apply_op ops e.

(** The listeners registered for [event] after the last [Close] of a
    history, in registration order. *)
Fixpoint registered_acc (ops : list op) (event : K) (acc : list callback)
  : list callback :=
  match ops with
  | [] => acc
  | OpOn k l :: rest =>
      registered_acc rest event (if K_eqb k event then acc ++ [l] else acc)
  | OpClose :: rest => registered_acc rest event []
  end.

Definition registered (ops : list op) (event : K) : list callback :=
  registered_acc ops event [].

(** Emitting each of a list of values in turn. *)
Definition emit_all (e : EventEmitterCallback) (event : K) (vs : list V)
  : list E :=
  flat_map (Emit e event) vs.

End WithTypes.

Arguments NewEventEmitter {K V E}.
Arguments OpClose {K V E}.

End Emitter.

Definition EventType_eqb (a b : EventType) : bool :=
  match a, b with
  | EventConnect, EventConnect
  | EventReconnect, EventReconnect
  | EventClose, EventClose => true
  | _, _ => false
  end.

(** A listener that records the value it is called with. *)
Definition recording_listener : Emitter.callback EventType EventType :=
  fun v => [v].

(** ** client_basic.go *)

Module Client.

(** What the client makes happen: calls of the user's two callbacks and
    calls on the connection handlers its factory produced. *)
Inductive effect : Type :=
| UserMessage (m : Message)                          (* b.messageHandler *)
| UserEvent (e : EventType)                          (* b.eventHandler *)
| HandlerFactory (h : HandlerId)
| HandlerConnect (h : HandlerId) (r : option error)
| HandlerRecv (h : HandlerId) (m : Message)
| HandlerSend (h : HandlerId) (m : Message)
| HandlerClose (h : HandlerId).

Definition emitter : Type :=
  Emitter.EventEmitterCallback EventType EventType effect.

Record basicClient : Type := mkClient
  { connectionHandler : option HandlerId;       (* nil before Open *)
    eventEmitter : option emitter }.            (* a pointer, nil or not *)

(** The client together with what surrounds it: how many handlers the
    factory has produced and the effects so far, oldest first. *)
Record state : Type := mkState
  { client : basicClient;
    produced : nat;
    effects : list effect }.

Definition newBasicClient : basicClient :=
  mkClient None (Some Emitter.NewEventEmitter).

Definition fresh : state := mkState newBasicClient 0 [].

(** The listener [Open] registers for each event:
    [func(eventType) { b.eventHandler(b, eventType) }]. *)
Definition forward_event : Emitter.callback EventType effect :=
  fun eventType => [UserEvent eventType].

(** [handlerWrapper], the message handler given to the handler stack; it
    reads [b.connectionHandler] when it is called. *)
Definition handlerWrapper (b : basicClient) (m : Message)
  : result (list effect) :=
  if IsData (Type_ m) then Ok [UserMessage m]
  else
    match connectionHandler b with
    | Some h => Ok [HandlerRecv h m]
    | None => Panics
    end.

Section WithHandlers.

(** The result of [Connect] on the handler with a given identity. *)
Variable Connect : HandlerId -> option error.

Definition On_ (em : emitter) (e : EventType) : emitter :=
  Emitter.On EventType EventType effect EventType_eqb em e forward_event.

(** [Open]: create the handler, register the three listeners, connect and
    return what [Connect] returned. *)
Definition Open (s : state) : result (option error * state) :=
  let h := produced s in
  match eventEmitter (client s) with
  | None => Panics
  | Some em =>
      let em := On_ em EventConnect in
      let em := On_ em EventClose in
      let em := On_ em EventReconnect in
      let err := Connect h in
      Ok (err,
          mkState (mkClient (Some h) (Some em)) (S h)
                  (effects s ++ [HandlerFactory h; HandlerConnect h err]))
  end.

Definition Send (m : Message) (s : state) : result state :=
  match connectionHandler (client s) with
  | Some h => Ok (mkState (client s) (produced s)
                          (effects s ++ [HandlerSend h m]))
  | None => Panics
  end.

(** [Close]: the emitter first, then the handler, each if not nil. *)
Definition Close (s : state) : state :=
  let em :=
    match eventEmitter (client s) with
    | Some em => Some (Emitter.Close EventType EventType effect em)
    | None => None
    end in
  let closing :=
    match connectionHandler (client s) with
    | Some h => [HandlerClose h]
    | None => []
    end in
  mkState (mkClient (connectionHandler (client s)) em) (produced s)
          (effects s ++ closing).

(** A handler of the stack calls [Emit(e, e)] on the emitter it was given,
    which is the client's. *)
Definition Emit (e : EventType) (s : state) : result state :=
  match eventEmitter (client s) with
  | Some em =>
      Ok (mkState (client s) (produced s)
            (effects s ++
             Emitter.Emit EventType EventType effect EventType_eqb em e e))
  | None => Panics
  end.

(** The handler stack hands an inbound message to the wrapper. *)
Definition Deliver (m : Message) (s : state) : result state :=
  match handlerWrapper (client s) m with
  | Ok es => Ok (mkState (client s) (produced s) (effects s ++ es))
  | Blocks => Blocks
  | Panics => Panics
  end.

Inductive call : Type :=
| COpen
| CSend (m : Message)
| CClose
| CEmit (e : EventType)
| CDeliver (m : Message).

Definition do_call (c : call) (s : state) : result state :=
  match c with
  | COpen =>
      match Open s with
      | Ok (_, s') => Ok s'
      | Blocks => Blocks
      | Panics => Panics
      end
  | CSend m => Send m s
  | CClose => Ok (Close s)
  | CEmit e => Emit e s
  | CDeliver m => Deliver m s
  end.

Fixpoint run (cs : list call) (s : state) : result state :=
  match cs with
  | [] => Ok s
  | c :: rest =>
      match do_call c s with
      | Ok s' => run rest s'
      | Blocks => Blocks
      | Panics => Panics
      end
  end.

End WithHandlers.

(** The messages and events the user's callbacks received, and the
    messages passed to a handler's [Recv], in order. *)
Fixpoint user_messages (es : list effect) : list Message :=
  match es with
  | [] => []
  | UserMessage m :: rest => m :: user_messages rest
  | _ :: rest => user_messages rest
  end.

Fixpoint user_events (es : list effect) : list EventType :=
  match es with
  | [] => []
  | UserEvent e :: rest => e :: user_events rest
  | _ :: rest => user_events rest
  end.

Fixpoint handler_recvs (es : list effect) : list (HandlerId * Message) :=
  match es with
  | [] => []
  | HandlerRecv h m :: rest => (h, m) :: handler_recvs rest
  | _ :: rest => handler_recvs rest
  end.

(** The listeners the client's emitter holds for an event. *)
Definition listeners_for (s : state) (e : EventType)
  : list (Emitter.callback EventType effect) :=
  match eventEmitter (client s) with
  | Some em => Emitter.held EventType EventType effect EventType_eqb em e
  | None => []
  end.

End Client.

(** ** The transport connection: opening, the two loops, closing *)

Module Transport.

(** Frame types and close codes of the websocket library. *)
Definition ws_TextMessage : Z := 1.
Definition ws_BinaryMessage : Z := 2.
Definition ws_CloseMessage : Z := 8.
Definition ws_PingMessage : Z := 9.
Definition ws_PongMessage : Z := 10.
Definition CloseGoingAway : Z := 1001.
Definition CloseAbnormalClosure : Z := 1006.

(** The errors the library's read and write calls return, as far as the
    loops inspect them: a close error with its code, a [net.Error] with its
    [Temporary()] answer, or anything else; each with its [Error()] text. *)
Inductive io_error : Type :=
| ws_CloseError (code : Z) (text : string)
| net_Error (temporary : bool) (text : string)
| other_error (text : string).

Definition io_text (e : io_error) : string :=
  match e with
  | ws_CloseError _ t | net_Error _ t | other_error t => t
  end.

(** [websocket.IsCloseError(err, codes...)]. *)
Definition IsCloseError (e : io_error) (codes : list Z) : bool :=
  match e with
  | ws_CloseError c _ => existsb (Z.eqb c) codes
  | _ => false
  end.

(** [e, ok := err.(net.Error); ok && e.Temporary()]. *)
Definition is_temporary (e : io_error) : bool :=
  match e with
  | net_Error t _ => t
  | _ => false
  end.

(** What the connection does on the socket and on its channels. *)
Inductive wire : Type :=
| WDial
| WWriteControl (frameType : Z) (data : list Byte.byte)
| WWriteMessage (frameType : Z) (data : list Byte.byte)
| WConnClose                          (* w.conn.Close() *)
| WCloseChan                          (* close(w.closeChan) *)
| WRecv (m : Message)                 (* w.recv <- m *)
| WGo_read
| WGo_write.

Record conn_state : Type := mkConn
  { guard : WsConnection;             (* closeReason and its once *)
    closeOnce : bool;
    opened : bool;                    (* w.conn is not nil *)
    wire_log : list wire }.

Definition new_conn : conn_state := mkConn NewWebsocketConnection false false [].

Definition log (c : conn_state) (ws : list wire) : conn_state :=
  mkConn (guard c) (closeOnce c) (opened c) (wire_log c ++ ws).

Definition set_reason (c : conn_state) (err : option error) : conn_state :=
  mkConn (setCloseReason (guard c) err) (closeOnce c) (opened c) (wire_log c).

Definition CloseErr (c : conn_state) : option error := ws_CloseErr (guard c).

(** [safeClose]: under [closeOnce], close the socket and the close channel.
    On a nil [*websocket.Conn] the library's [Close] answers with an error,
    which [close] discards, and the close channel is closed all the same. *)
Definition safeClose (c : conn_state) : result conn_state :=
  if closeOnce c then Ok c
  else Ok (mkConn (guard c) true (opened c)
                  (wire_log c ++ [WConnClose; WCloseChan])).

Definition is_too_many_requests (resp : option http_Response) : bool :=
  match resp with
  | Some r => StatusCode r =? StatusTooManyRequests
  | None => false
  end.

(** [start]: fetch the parameters, dial, classify the outcome, and when
    that gives nil keep the socket [Dial] returned and spawn [read] and
    [write]. [params_err] is the error of the parameters getter, [conn],
    [resp] and [err] are what [Dial] returned. The socket kept is nil when
    an adapter classifies a failed dial as no error: installing the
    control-frame handlers on a nil [*websocket.Conn] does nothing. *)
Definition start (OnDial : option ErrAdapter) (params_err : option error)
    (conn : Conn) (resp : option http_Response) (err : option error)
    (c : conn_state) : result (option error * conn_state) :=
  match params_err with
  | Some e => Ok (Some e, c)
  | None =>
      let c := log c [WDial] in
      match handleDialError OnDial conn resp err with
      | Some e => Ok (Some e, c)
      | None =>
          Ok (None,
              mkConn (guard c) (closeOnce c)
                     (match conn with Some _ => true | None => false end)
                     (wire_log c ++ [WGo_read; WGo_write]))
      end
  end.

(** The frame [write] puts on the wire for a message, if any. *)
Definition frame_of (msg : Message) : list wire :=
  if Type_ msg =? PingMessage
  then [WWriteControl ws_PingMessage (Data msg)]
  else if Type_ msg =? PongMessage
  then [WWriteControl ws_PongMessage (Data msg)]
  else if Type_ msg =? DataMessage
  then [WWriteMessage ws_TextMessage (Data msg)]
  else [].

(** The value of [err] after the switch of [write], given what the write
    call returned: there is none without a write, and a temporary network
    error of a ping write is dropped. *)
Definition write_err (msg : Message) (out : option io_error)
  : option io_error :=
  if Type_ msg =? PingMessage
  then match out with
       | Some e => if is_temporary e then None else Some e
       | None => None
       end
  else if Type_ msg =? PongMessage then out
  else if Type_ msg =? DataMessage then out
  else None.

(** The close-reason [write] records for an error. *)
Definition write_reason (e : io_error) : option error :=
  if IsCloseError e [CloseGoingAway; CloseAbnormalClosure]
  then Some ErrConnectionClosed
  else errors_Wrap (Some ErrConnectionClosed) (io_text e).

(** The send case of [write] for one message; the loop goes on afterwards,
    whatever happened. The write deadline set before the switch is not
    recorded. *)
Definition write_msg (msg : Message) (out : option io_error)
    (c : conn_state) : conn_state :=
  let c := log c (frame_of msg) in
  match write_err msg out with
  | Some e => set_reason c (write_reason e)
  | None => c
  end.

(** The cases of the select of [write]; the send case carries the message
    and what the write call returns. *)
Inductive write_case : Type :=
| wc_closeChan
| wc_ctx_Done
| wc_send (msg : Message) (out : option io_error)
| wc_send_closed.

(** One turn of [write]: the state and whether the loop goes on. A return
    runs the deferred [safeClose]. *)
Definition write_step (wc : write_case) (c : conn_state)
  : result (conn_state * bool) :=
  let leave (c : conn_state) :=
    match safeClose (set_reason c (Some ErrTerminated)) with
    | Ok c' => Ok (c', false)
    | Blocks => Blocks
    | Panics => Panics
    end in
  match wc with
  | wc_closeChan => if closeOnce c then leave c else Blocks
  | wc_ctx_Done => leave c
  | wc_send msg out => Ok (write_msg msg out c, true)
  | wc_send_closed => leave (log c [WWriteMessage ws_CloseMessage []])
  end.

(** The message [read] pushes for a frame. *)
Definition message_of_frame (messageType : Z) (bts : list Byte.byte)
  : Message :=
  if messageType =? ws_BinaryMessage then NewBinaryMessage bts
  else if messageType =? ws_CloseMessage then NewCloseMessage messageType bts
  else NewDataMessage bts.

(** The cases of [read]: the two channels, or the default case, in which
    [ReadMessage] returns a frame or an error or, while it waits, calls one
    of the control-frame handlers [start] installed. The default case is
    taken only when no channel is ready. *)
Inductive read_case : Type :=
| rc_closeChan
| rc_ctx_Done
| rc_frame (messageType : Z) (bts : list Byte.byte)
| rc_error (e : io_error)
| rc_ping (appData : list Byte.byte)
| rc_pong (appData : list Byte.byte)
| rc_close_frame (code : Z) (text : list Byte.byte).

Definition read_step (rc : read_case) (c : conn_state)
  : result (conn_state * bool) :=
  let leave (c : conn_state) :=
    match safeClose c with
    | Ok c' => Ok (c', false)
    | Blocks => Blocks
    | Panics => Panics
    end in
  match rc with
  | rc_closeChan =>
      if closeOnce c then leave (set_reason c (Some ErrTerminated))
      else Blocks
  | rc_ctx_Done => leave (set_reason c (Some ErrTerminated))
  | rc_frame messageType bts =>
      if closeOnce c then Blocks
      else Ok (log c [WRecv (message_of_frame messageType bts)], true)
  | rc_error e =>
      if closeOnce c then Blocks
      else
        leave (set_reason c
                 (errors_Wrap (Some ErrConnectionClosed)
                    ("error occurred on websocket read: " ++ io_text e)))
  | rc_ping appData =>
      if closeOnce c then Blocks
      else Ok (log c [WRecv (NewPingMessage appData)], true)
  | rc_pong appData =>
      if closeOnce c then Blocks
      else Ok (log c [WRecv (NewPongMessage appData)], true)
  | rc_close_frame code text =>
      if closeOnce c then Blocks
      else Ok (log c [WRecv (NewCloseMessage code text)], true)
  end.

(** What arrives on the socket while [read] is in its default case: a frame
    [ReadMessage] returns, or a control frame given to its handler. *)
Inductive arrival : Type :=
| InFrame (messageType : Z) (bts : list Byte.byte)
| InPing (appData : list Byte.byte)
| InPong (appData : list Byte.byte)
| InClose (code : Z) (text : list Byte.byte).

Definition read_case_of (a : arrival) : read_case :=
  match a with
  | InFrame t bts => rc_frame t bts
  | InPing d => rc_ping d
  | InPong d => rc_pong d
  | InClose code text => rc_close_frame code text
  end.

Definition payload (a : arrival) : list Byte.byte :=
  match a with
  | InFrame _ bts => bts
  | InPing d | InPong d => d
  | InClose _ text => text
  end.

(** The message pushed to the receive channel for an arrival. *)
Definition message_of (a : arrival) : Message :=
  match a with
  | InFrame t bts => message_of_frame t bts
  | InPing d => NewPingMessage d
  | InPong d => NewPongMessage d
  | InClose code text => NewCloseMessage code text
  end.

(** What happens to an open connection: [Close] is called, or one of the
    loops takes a turn. *)
Inductive conn_op : Type :=
| OpClose
| OpRead (rc : read_case)
| OpWrite (wc : write_case).

Definition conn_step (o : conn_op) (c : conn_state) : result conn_state :=
  match o with
  | OpClose => safeClose c
  | OpRead rc =>
      match read_step rc c with
      | Ok (c', _) => Ok c'
      | Blocks => Blocks
      | Panics => Panics
      end
  | OpWrite wc =>
      match write_step wc c with
      | Ok (c', _) => Ok c'
      | Blocks => Blocks
      | Panics => Panics
      end
  end.

Fixpoint conn_run (os : list conn_op) (c : conn_state) : result conn_state :=
  match os with
  | [] => Ok c
  | o :: rest =>
      match conn_step o c with
      | Ok c' => conn_run rest c'
      | Blocks => Blocks
      | Panics => Panics
      end
  end.




End Transport.

(** More scenarios, for the transport. *)
Module TransportScenario.

(** The first handler's dial is refused; there is no HTTP response. *)
Definition dial_refused (h : HandlerId) : option error :=
  match h with
  | O => handleDialError None None None
                         (Some (errors_New "connection refused"))
  | _ => None
  end.

(** A connection as [start] leaves it after a successful dial. *)
Definition open_conn : Transport.conn_state :=
  Transport.mkConn NewWebsocketConnection false true
    [Transport.WDial; Transport.WGo_read; Transport.WGo_write].

Definition timeout_error : Transport.io_error :=
  Transport.net_Error true "i/o timeout".





End TransportScenario.

(** ** Traces of the connecting loops *)

(** The events of a failed pass of [newConnHandler]: the [j]-th handler
    created since [base] fails to connect and the loop sleeps, one second
    for ErrCannotConnect and otherwise what the calculator gives for the
    counter, which started at [a] and has counted this pass. *)
Definition backoff_failed_pass (ConnectFunc : HandlerId -> option error)
    (calculator : Z -> Duration) (base : nat) (a : Z) (j : nat)
  : list event :=
  let h := (base + j)%nat in
  [EFactory h; EConnect h (ConnectFunc h);
   ESleep (if errors_Is (ConnectFunc h) ErrCannotConnect
           then Second
           else calculator (a + Z.of_nat (S j)))].

(** The events of a failed pass of [newConnectionHandler]. *)
Definition reopen_failed_pass (ConnectFunc : HandlerId -> option error)
    (base : nat) (j : nat) : list event :=
  let h := (base + j)%nat in
  [EFactory h; EConnect h (ConnectFunc h); EClose h].

(** The handlers closed, in order. *)
Fixpoint closes (tr : list event) : list HandlerId :=
  match tr with
  | [] => []
  | EClose h :: rest => h :: closes rest
  | _ :: rest => closes rest
  end.

(** The messages passed to [Send] of inner handlers, in order. *)
Fixpoint sends (tr : list event) : list (HandlerId * Message) :=
  match tr with
  | [] => []
  | ESend h m :: rest => (h, m) :: sends rest
  | _ :: rest => sends rest
  end.

(** One repair cycle of the backoff handler in which the inner handler
    closes with [reason] and the first reconnect attempt succeeds. *)
Definition quick_cycle (reason : option error) : list action :=
  [Select (case_innerCloseChan reason); Attempt].

(** Repair cycles of that kind, each after the connection has been up for
    the given time. *)
Fixpoint short_lived_cycles (reason : option error)
    (lifetimes : list Duration) : list action :=
  match lifetimes with
  | [] => []
  | d :: rest =>
      Elapse d :: quick_cycle reason ++ short_lived_cycles reason rest
  end.

(** The state in which a list of actions leaves a system, when none of them
    blocks or panics. *)
Definition state_after (ConnectFunc : HandlerId -> option error)
    (calculator : Z -> Duration) (connDurationThreshold : Duration)
    (acts : list action) (s : system) : system :=
  match exec ConnectFunc calculator connDurationThreshold acts s with
  | Ok s' => s'
  | _ => s
  end.

(** More scenarios, for the backoff handler as a whole. *)
Module BackoffScenario.

(** A connected handler whose inner handler has been replaced once. *)
Definition reconnected : system :=
  state_after Scenario.always_up Scenario.two_seconds_each Scenario.threshold
    (quick_cycle (Some ErrConnectionClosed))
    (Scenario.connected Scenario.always_up Scenario.two_seconds_each 1).

Definition reconnected_frame : run_frame :=
  mkFrame AtSelect 1%nat 1 (2 * Second) 0%nat.

Definition hello : Message := NewDataMessage [Byte.x68; Byte.x69].

End BackoffScenario.

(** ** More of the reopen-interval handler *)

(** [Send] and [Recv] go to the current inner handler, read under the read
    lock; a nil inner makes the call panic. *)
Definition reopen_Send (b : reopenIntervalConnectionHandler) (m : Message)
    (w : World) : result World :=
  match reopen_inner b with
  | Some h => Ok (snd (inner_Send h m w))
  | None => Panics
  end.

Definition reopen_Recv (b : reopenIntervalConnectionHandler) (m : Message)
    (w : World) : result World :=
  match reopen_inner b with
  | Some h => Ok (snd (inner_Recv h m w))
  | None => Panics
  end.

(** Several turns of the select of [run], one after the other; once [run]
    has returned the remaining cases are not taken. *)
Fixpoint reopen_run (ConnectFunc : HandlerId -> option error) (fuel : nat)
    (cases : list reopen_case) (b : reopenIntervalConnectionHandler)
    (f : reopen_frame) (w : World)
  : option (result (reopenIntervalConnectionHandler * option reopen_frame
                    * World)) :=
  match cases with
  | [] => Some (Ok (b, Some f, w))
  | c :: rest =>
      match reopen_run_select ConnectFunc fuel c b f w with
      | Some (Ok (b', Some f', w')) =>
          reopen_run ConnectFunc fuel rest b' f' w'
      | other => other
      end
  end.

(** ** More of the active keep-alive handler *)

(** The cases of the select of its [run]; the ticker case comes with the
    message [keepAliveMessageFactory()] returns at that tick. *)
Inductive active_case : Type :=
| acase_ctx_Done
| acase_tick (m : Message)
| acase_closeC.

(** [NewKeepAliveMessageFactory(mt, contentFactory)()], given the content
    the content factory returns. *)
Definition keepAliveMessage (mt : MessageType) (content : list Byte.byte)
  : Message :=
  NewMessage mt content.

(** What happens to an active keep-alive handler: calls of [Connect] and
    [Close], and turns of its [run] goroutine once it is spawned. *)
Inductive active_op : Type :=
| AConnect
| AClose
| ATurn (c : active_case).

Record active_system : Type := mkActiveSystem
  { active_handler : activeKeepAliveConnectionHandler;
    active_running : bool;            (* [run] is spawned and not returned *)
    active_world : World }.

Definition active_step (ConnectFunc : HandlerId -> option error)
    (o : active_op) (s : active_system) : result active_system :=
  let h := active_handler s in
  match o with
  | AConnect =>
      let '(_, h', w') := active_Connect ConnectFunc h (active_world s) in
      Ok (mkActiveSystem h'
            (if connectOnce h then active_running s else true) w')
  | AClose =>
      let '(h', w') := active_Close h (active_world s) in
      Ok (mkActiveSystem h' (active_running s) w')
  | ATurn c =>
      if active_running s then
        if pingInterval h <=? 0 then Panics   (* time.NewTicker panics *)
        else
        match c with
        | acase_ctx_Done => Ok (mkActiveSystem h false (active_world s))
        | acase_tick m =>
            Ok (mkActiveSystem h true
                  (snd (inner_Send (active_inner h) m (active_world s))))
        | acase_closeC =>
            if active_closeC h
            then Ok (mkActiveSystem h false (active_world s))
            else Blocks
        end
      else Blocks
  end.

Fixpoint active_exec (ConnectFunc : HandlerId -> option error)
    (os : list active_op) (s : active_system) : result active_system :=
  match os with
  | [] => Ok s
  | o :: rest =>
      match active_step ConnectFunc o s with
      | Ok s' => active_exec ConnectFunc rest s'
      | Blocks => Blocks
      | Panics => Panics
      end
  end.

(** The results of [n] calls of [Connect] in a row, with the handler and
    the world they leave. *)
Fixpoint active_Connects (ConnectFunc : HandlerId -> option error) (n : nat)
    (h : activeKeepAliveConnectionHandler) (w : World)
  : list (option error) * activeKeepAliveConnectionHandler * World :=
  match n with
  | O => ([], h, w)
  | S n' =>
      let '(r, h1, w1) := active_Connect ConnectFunc h w in
      let '(rs, h2, w2) := active_Connects ConnectFunc n' h1 w1 in
      (r :: rs, h2, w2)
  end.

(** More scenarios, for the reopen-interval handler. *)
Module ReopenScenario.

(** What [newConnectionHandler] leaves when the first two handlers fail. *)
Definition third_connects : World :=
  match newConnectionHandler Scenario.fail_twice 3 Scenario.w0 with
  | Some (_, w) => w
  | None => Scenario.w0
  end.

Definition first_inner : reopenIntervalConnectionHandler :=
  reopen_with_inner newReopenIntervalConn 0%nat.

Definition one_created : World := mkWorld [] 1 0.

(** [Connect], then a scheduled rotation, then an unexpected close. *)
Definition rotated_twice
  : reopenIntervalConnectionHandler * reopen_frame * World :=
  let '(b1, f1, w1) :=
    Scenario.reopen_connected Scenario.always_up 1 newReopenIntervalConn
                              Scenario.w0 in
  match reopen_run Scenario.always_up 1 [rcase_ticker; rcase_closeChan]
                   b1 f1 w1 with
  | Some (Ok (b, Some f, w)) => (b, f, w)
  | _ => (b1, f1, w1)
  end.

End ReopenScenario.

(** * Properties *)

(** ** Arithmetic *)

Lemma wrap_small (z : Z) :
  Int64.min_int <= z <= Int64.max_int -> Int64.wrap z = z.
Proof.
  unfold Int64.wrap, Int64.modulus, Int64.min_int, Int64.max_int. intros H.
  rewrite Z.mod_small; lia.
Qed.

Lemma add_one_small (a : Z) :
  Int64.min_int <= a < Int64.max_int -> Int64.add a 1 = a + 1.
Proof.
  intros H. unfold Int64.add. apply wrap_small. lia.
Qed.

Lemma forallb_below (P : Z -> bool) (k : nat) :
  forallb P (map Z.of_nat (seq 0 k)) = true ->
  forall n, 0 <= n < Z.of_nat k -> P n = true.
Proof.
  intros H n Hn. rewrite forallb_forall in H. apply H.
  apply in_map_iff. exists (Z.to_nat n). split; [lia|].
  apply in_seq. lia.
Qed.

(** C10 (amended): for every attempt count [n] from 0 to 34 the default
    calculator returns floor((2^n - 1) / 2) seconds; this gives 0, 0, 1, 3, 7
    and 15 seconds for n = 0..5. *)
Theorem ExponentialBackoffSeconds_floor (n : Z) :
  0 <= n <= 34 ->
  ExponentialBackoffSeconds n = Some ((2 ^ n - 1) / 2 * Second).
Proof.
  intros Hn.
  assert (H : backoff_agrees n = true).
  { apply (forallb_below backoff_agrees 35); [vm_compute; reflexivity | lia]. }
  unfold backoff_agrees in H.
  destruct (ExponentialBackoffSeconds n) as [d|]; [|discriminate].
  apply Z.eqb_eq in H. now subst.
Qed.

Lemma ExponentialBackoffSeconds_floor_witness :
  0 <= 5 <= 34 /\ ExponentialBackoffSeconds 5 = Some (15 * Second).
Proof.
  split; [lia|]. apply (ExponentialBackoffSeconds_floor 5). lia.
Defined.

Example ExponentialBackoffSeconds_first_values :
  map ExponentialBackoffSeconds [0; 1; 2; 3; 4; 5] =
  map (fun s => Some (s * Second)) [0; 0; 1; 3; 7; 15].
Proof. vm_compute. reflexivity. Qed.

(** C10 as stated fails: at 35 attempts the product with [time.Second]
    overflows int64 and the duration returned is negative. *)
Lemma ExponentialBackoffSeconds_35_overflows :
  ~ (forall n, 0 <= n ->
       ExponentialBackoffSeconds n = Some ((2 ^ n - 1) / 2 * Second)).
Proof.
  intros H. specialize (H 35 ltac:(lia)).
  vm_compute in H. discriminate H.
Qed.

Example ExponentialBackoffSeconds_35 :
  ExponentialBackoffSeconds 35 = Some (-1266874890709551616).
Proof. vm_compute. reflexivity. Qed.

(** ** Passive keep-alive *)


Example passive_ping_scenario :
  trace (snd (passive_Recv
                (newPassiveKeepAliveConnectionHandler 0%nat
                   KeepAliveHandlerReplyPingWithPong)
                Scenario.ping Scenario.w0)) =
  [ESend 0%nat (NewPongMessage [Byte.x01; Byte.x02]);
   ERecv 0%nat Scenario.ping].
Proof. reflexivity. Qed.

(** ** The backoff handler: counting attempts *)

Section BackoffCounting.

Variable ConnectFunc : HandlerId -> option error.
Variable calculator : Z -> Duration.
Variable connDurationThreshold : Duration.

Lemma repair_attempts_cases (reason : option error) (delta a : Z) :
  Int64.min_int <= a < Int64.max_int ->
  let hit := errors_Is reason ErrConnectionClosed
             || errors_Is reason ErrTerminated in
  let a' := repair_attempts connDurationThreshold reason delta a in
  (hit = true -> connDurationThreshold < delta -> a' = 0) /\
  (hit = true -> delta <= connDurationThreshold -> a' = a + 1) /\
  (hit = false -> a' = a).
Proof.
  intros Ha hit a'. subst hit a'. unfold repair_attempts.
  destruct reason as [e|]; cbn [errors_Is].
  - destruct (Is_chain e ErrConnectionClosed || Is_chain e ErrTerminated).
    + repeat split; intros; try discriminate.
      * assert (E : (connDurationThreshold <? delta) = true)
          by (apply Z.ltb_lt; lia).
        now rewrite E.
      * assert (E : (connDurationThreshold <? delta) = false)
          by (apply Z.ltb_ge; lia).
        rewrite E. now apply add_one_small.
    + repeat split; intros; try discriminate; reflexivity.
  - cbn. repeat split; intros; try discriminate; reflexivity.
Qed.

(** C1: in the repair case of [run], the counter is reset to 0 when the
    close-reason matches ErrConnectionClosed or ErrTerminated and the
    connection outlived connDurationThreshold, incremented by 1 when the
    reason matches but the lifetime did not exceed the threshold, and left
    alone for any other reason, nil included; the handler then sleeps the
    calculator's value at the resulting counter and goes on to reconnect. *)
Theorem run_repair_counter
    (b : backoffConnectionHandler) (f : run_frame) (w : World)
    (h : HandlerId) (reason : option error) :
  inner b = Some h ->
  Int64.min_int <= attempts f < Int64.max_int ->
  exists b' f' w',
    run_select calculator connDurationThreshold
               (case_innerCloseChan reason) b f w = Ok (b', f', w') /\
    let delta := now w - then_ f in
    let hit := errors_Is reason ErrConnectionClosed
               || errors_Is reason ErrTerminated in
    (hit = true -> connDurationThreshold < delta -> attempts f' = 0) /\
    (hit = true -> delta <= connDurationThreshold ->
     attempts f' = attempts f + 1) /\
    (hit = false -> attempts f' = attempts f) /\
    trace w' = trace w ++ [EClose h; ESleep (calculator (attempts f'))] /\
    pc f' = InNewConnHandler 0.
Proof.
  intros Hin Ha. unfold run_select. rewrite Hin.
  eexists _, _, _. split; [reflexivity|].
  cbn [attempts pc closeReason with_closeReason].
  pose proof (repair_attempts_cases reason (now w - then_ f) (attempts f) Ha)
    as (H1 & H2 & H3).
  cbn in *. repeat split; try assumption.
  now rewrite <- app_assoc.
Qed.

End BackoffCounting.

Lemma run_repair_counter_witness :
  exists b' f' w',
    run_select Scenario.two_seconds_each (100 * 1000000)
      (case_innerCloseChan (Some ErrConnectionClosed))
      (with_inner newBackoffConnectionHandler 0%nat)
      (mkFrame AtSelect 0%nat 3 0 0%nat)
      (mkWorld [] 1 (500 * 1000000)) = Ok (b', f', w') /\
    attempts f' = 0 /\
    trace w' = [EClose 0%nat; ESleep 0].
Proof.
  destruct (run_repair_counter Scenario.two_seconds_each (100 * 1000000)
              (with_inner newBackoffConnectionHandler 0%nat)
              (mkFrame AtSelect 0%nat 3 0 0%nat)
              (mkWorld [] 1 (500 * 1000000)) 0%nat
              (Some ErrConnectionClosed))
    as (b' & f' & w' & Hrun & Hreset & _ & _ & Htrace & _).
  - reflexivity.
  - cbn. unfold Int64.min_int, Int64.max_int. lia.
  - exists b', f', w'. split; [exact Hrun|].
    assert (Ha : attempts f' = 0).
    { apply Hreset; [reflexivity | cbn; lia]. }
    split; [exact Ha|].
    rewrite Htrace, Ha. reflexivity.
Defined.

(** ** The backoff handler: the connecting loop *)

Lemma sleeps_app (l1 l2 : list event) :
  sleeps (l1 ++ l2) = sleeps l1 ++ sleeps l2.
Proof.
  induction l1 as [|e l1 IH]; [reflexivity|].
  destruct e; cbn; rewrite ?IH; reflexivity.
Qed.

Section ConnectingLoop.

Variable ConnectFunc : HandlerId -> option error.
Variable calculator : Z -> Duration.

Local Abbreviation body := (newConnHandler_body ConnectFunc calculator).
Local Abbreviation loop := (newConnHandler_loop ConnectFunc calculator).

Lemma newConnHandler_body_ok (a : Z) (w : World) :
  ConnectFunc (created w) = None ->
  body a w =
    (Int64.add a 1, Some (created w),
     mkWorld (trace w ++ [EFactory (created w); EConnect (created w) None])
             (S (created w)) (now w)).
Proof.
  intros H. unfold newConnHandler_body, WorldMonad.bind,
    connHandlerFactory, inner_Connect, WorldMonad.emit, WorldMonad.ret,
    WorldMonad.bind. cbn. rewrite H. cbn.
  now rewrite <- app_assoc.
Qed.

Lemma newConnHandler_body_other (a : Z) (w : World) (e : error) :
  ConnectFunc (created w) = Some e ->
  errors_Is (Some e) ErrCannotConnect = false ->
  body a w =
    (Int64.add a 1, None,
     mkWorld (trace w ++ [EFactory (created w);
                          EConnect (created w) (Some e);
                          ESleep (calculator (Int64.add a 1))])
             (S (created w))
             (now w + Z.max 0 (calculator (Int64.add a 1)))).
Proof.
  intros H Hno. unfold newConnHandler_body, WorldMonad.bind,
    connHandlerFactory, inner_Connect, WorldMonad.emit, WorldMonad.ret,
    WorldMonad.bind, time_Sleep. cbn. rewrite H. rewrite Hno. cbn.
  now rewrite <- !app_assoc.
Qed.

Lemma newConnHandler_body_cannot (a : Z) (w : World) (e : error) :
  ConnectFunc (created w) = Some e ->
  errors_Is (Some e) ErrCannotConnect = true ->
  body a w =
    (Int64.add a 1, None,
     mkWorld (trace w ++ [EFactory (created w);
                          EConnect (created w) (Some e);
                          ESleep Second])
             (S (created w)) (now w + Z.max 0 Second)).
Proof.
  intros H Hyes. unfold newConnHandler_body, WorldMonad.bind,
    connHandlerFactory, inner_Connect, WorldMonad.emit, WorldMonad.ret,
    WorldMonad.bind, time_Sleep. cbn. rewrite H. rewrite Hyes. cbn.
  now rewrite <- !app_assoc.
Qed.

(** Whatever the error, a failed pass creates one handler and continues. *)
Lemma newConnHandler_body_continue (a : Z) (w : World) (e : error) :
  ConnectFunc (created w) = Some e ->
  exists w', body a w = (Int64.add a 1, None, w') /\
             created w' = S (created w).
Proof.
  intros H. destruct (errors_Is (Some e) ErrCannotConnect) eqn:E.
  - eexists. split; [now apply newConnHandler_body_cannot with (e := e)|].
    reflexivity.
  - eexists. split; [now apply newConnHandler_body_other with (e := e)|].
    reflexivity.
Qed.

(** The loop returns as soon as an attempt succeeds. *)
Lemma newConnHandler_loop_returns (k : nat) :
  forall a w,
    ConnectFunc (created w + k)%nat = None ->
    exists ch w', loop (S k) a w = Some (ch, w').
Proof.
  induction k as [|k IH]; intros a w Hk.
  - rewrite Nat.add_0_r in Hk. cbn [newConnHandler_loop].
    rewrite (newConnHandler_body_ok a w Hk). eauto.
  - destruct (ConnectFunc (created w)) as [e|] eqn:E.
    + destruct (newConnHandler_body_continue a w e E) as (w1 & Hb & Hc).
      destruct (IH (Int64.add a 1) w1) as (ch & w' & Hl).
      { rewrite Hc. now rewrite Nat.add_succ_comm. }
      exists ch, w'.
      change (newConnHandler_loop ConnectFunc calculator (S (S k)) a w)
        with (match body a w with
              | (_, Some ch, w') => Some (ch, w')
              | (attempts', None, w') =>
                  newConnHandler_loop ConnectFunc calculator (S k) attempts' w'
              end).
      rewrite Hb. exact Hl.
    + change (newConnHandler_loop ConnectFunc calculator (S (S k)) a w)
        with (match body a w with
              | (_, Some ch, w') => Some (ch, w')
              | (attempts', None, w') =>
                  newConnHandler_loop ConnectFunc calculator (S k) attempts' w'
              end).
      rewrite (newConnHandler_body_ok a w E). eauto.
Qed.

Lemma newConnHandler_loop_sleeps (k : nat) :
  forall a w,
    (forall j, (j < k)%nat ->
       exists e, ConnectFunc (created w + j)%nat = Some e /\
                 errors_Is (Some e) ErrCannotConnect = false) ->
    ConnectFunc (created w + k)%nat = None ->
    Int64.min_int <= a -> a + Z.of_nat k < Int64.max_int ->
    exists w' evs,
      loop (S k) a w = Some ((created w + k)%nat, w') /\
      trace w' = trace w ++ evs /\
      sleeps evs = map (fun j => calculator (a + Z.of_nat j)) (seq 1 k).
Proof.
  induction k as [|k IH]; intros a w Hfail Hk Hlo Hhi.
  - rewrite Nat.add_0_r in *. cbn [newConnHandler_loop].
    rewrite (newConnHandler_body_ok a w Hk).
    eexists _, _. repeat split; reflexivity.
  - destruct (Hfail O ltac:(lia)) as (e & He & Hno).
    rewrite Nat.add_0_r in He.
    pose proof (newConnHandler_body_other a w e He Hno) as Hb.
    rewrite (add_one_small a) in Hb by lia.
    set (w1 := mkWorld
                 (trace w ++ [EFactory (created w);
                              EConnect (created w) (Some e);
                              ESleep (calculator (a + 1))])
                 (S (created w)) (now w + Z.max 0 (calculator (a + 1)))) in *.
    destruct (IH (a + 1) w1) as (w' & evs & Hl & Ht & Hs).
    + intros j Hj. cbn [created w1].
      replace (S (created w) + j)%nat with (created w + S j)%nat by lia.
      apply Hfail. lia.
    + cbn [created w1].
      now replace (S (created w) + k)%nat with (created w + S k)%nat by lia.
    + lia.
    + lia.
    + exists w', ([EFactory (created w); EConnect (created w) (Some e);
                   ESleep (calculator (a + 1))] ++ evs).
      split; [|split].
      * change (newConnHandler_loop ConnectFunc calculator (S (S k)) a w)
          with (match body a w with
                | (_, Some ch, w') => Some (ch, w')
                | (attempts', None, w') =>
                    newConnHandler_loop ConnectFunc calculator (S k)
                                        attempts' w'
                end).
        rewrite Hb. rewrite Hl. cbn [created w1].
        now replace (S (created w) + k)%nat with (created w + S k)%nat by lia.
      * rewrite Ht. cbn [trace w1]. now rewrite <- app_assoc.
      * rewrite sleeps_app, Hs. cbn [sleeps app].
        change (seq 1 (S k)) with (1%nat :: seq 2 k).
        rewrite <- (seq_shift k 1), map_cons, map_map. f_equal.
        apply map_ext. intros j. f_equal. lia.
Qed.

(** C2 (amended): [newConnHandler] starts its counter at 0 and increments
    it at the top of every pass, before the attempt, so a failure with an
    error other than ErrCannotConnect waits the calculator's value at the
    counter that already counts the failed attempt and then retries: when
    the first k attempts fail in this way the sleeps are f(1), ..., f(k). *)
Theorem newConnHandler_sleeps_after_increment (k : nat) (w : World) :
  (forall j, (j < k)%nat ->
     exists e, ConnectFunc (created w + j)%nat = Some e /\
               errors_Is (Some e) ErrCannotConnect = false) ->
  ConnectFunc (created w + k)%nat = None ->
  Z.of_nat k < Int64.max_int ->
  exists w' evs,
    newConnHandler ConnectFunc calculator (S k) w
      = Some ((created w + k)%nat, w') /\
    trace w' = trace w ++ evs /\
    sleeps evs = map (fun j => calculator (Z.of_nat j)) (seq 1 k).
Proof.
  intros Hfail Hk Hhi.
  destruct (newConnHandler_loop_sleeps k 0 w Hfail Hk) as (w' & evs & H);
    [unfold Int64.min_int; lia | lia |].
  exists w', evs. exact H.
Qed.

End ConnectingLoop.

Lemma newConnHandler_sleeps_after_increment_witness :
  exists w' evs,
    newConnHandler Scenario.fail_twice Scenario.two_seconds_each 3 Scenario.w0
      = Some (2%nat, w') /\
    trace w' = evs /\
    sleeps evs = [2 * Second; 4 * Second].
Proof.
  destruct (newConnHandler_sleeps_after_increment
              Scenario.fail_twice Scenario.two_seconds_each 2 Scenario.w0)
    as (w' & evs & Hrun & Htrace & Hsleeps).
  - intros j Hj. exists Scenario.boom.
    destruct j as [|[|j]]; [split; reflexivity | split; reflexivity | lia].
  - reflexivity.
  - unfold Int64.max_int. lia.
  - exists w', evs. repeat split; assumption.
Defined.

(** C2 as stated fails: the sleep after the first failure is f(1), not
    f(0), and the one after the second is f(2), not f(1). *)
Lemma newConnHandler_first_sleep_is_not_f0 :
  option_map (fun r => sleeps (trace (snd r)))
    (newConnHandler Scenario.fail_twice Scenario.two_seconds_each 3
                    Scenario.w0)
  = Some [Scenario.two_seconds_each 1; Scenario.two_seconds_each 2]
  /\ [Scenario.two_seconds_each 1; Scenario.two_seconds_each 2]
     <> [Scenario.two_seconds_each 0; Scenario.two_seconds_each 1].
Proof.
  split; [vm_compute; reflexivity | vm_compute; discriminate].
Qed.

(** ** Dial errors and the connecting loop *)

(** C7 (amended): when the dial is answered with HTTP 429 the default
    dial-error handling returns ErrRateLimit wrapped with the response body
    as its message; that error does not match ErrCannotConnect, so the
    connecting loop of the backoff handler takes the calculator branch, and
    sleeps f(attempts), not the fixed second. *)
Theorem rate_limit_error_takes_calculator_branch
    (conn : Conn) (body : option ReadAll_result) (dial_err : option error) :
  let err := handleDialError None conn
               (Some (mkResponse StatusTooManyRequests body)) dial_err in
  err = Some (withMessage ErrRateLimit
                match body with
                | Some (ReadAll_ok bts) => bts
                | _ => EmptyString
                end) /\
  errors_Is err ErrRateLimit = true /\
  errors_Is err ErrCannotConnect = false /\
  forall (ConnectFunc : HandlerId -> option error) (calculator : Z -> Duration)
         (a : Z) (w : World),
    ConnectFunc (created w) = err ->
    newConnHandler_body ConnectFunc calculator a w =
      (Int64.add a 1, None,
       mkWorld (trace w ++ [EFactory (created w);
                            EConnect (created w) err;
                            ESleep (calculator (Int64.add a 1))])
               (S (created w))
               (now w + Z.max 0 (calculator (Int64.add a 1)))).
Proof.
  cbv zeta. unfold handleDialError. cbn.
  repeat split.
  intros cf calc a w H.
  now apply newConnHandler_body_other.
Qed.

Lemma rate_limit_error_takes_calculator_branch_witness :
  Scenario.rate_limited_once (created Scenario.w0)
    = Some (withMessage ErrRateLimit "slow down") /\
  newConnHandler_body Scenario.rate_limited_once Scenario.two_seconds_each
                      0 Scenario.w0 =
    (1, None,
     mkWorld [EFactory 0%nat;
              EConnect 0%nat (Some (withMessage ErrRateLimit "slow down"));
              ESleep (2 * Second)]
             1 (2 * Second)).
Proof.
  split; [reflexivity|].
  exact (proj2 (proj2 (proj2
           (rate_limit_error_takes_calculator_branch
              None (Some (ReadAll_ok "slow down"))
              (Some (errors_New "bad handshake")))))
         Scenario.rate_limited_once Scenario.two_seconds_each
         0 Scenario.w0 eq_refl).
Defined.

(** C7 as stated fails: after a 429 the loop does not wait the fixed
    second, it waits what the calculator says. *)
Lemma rate_limit_error_is_not_retried_after_one_second :
  errors_Is (Scenario.rate_limited_once 0%nat) ErrCannotConnect = false /\
  option_map (fun r => sleeps (trace (snd r)))
    (newConnHandler Scenario.rate_limited_once Scenario.two_seconds_each 2
                    Scenario.w0)
  = Some [Scenario.two_seconds_each 1] /\
  [Scenario.two_seconds_each 1] <> [Second].
Proof.
  repeat split; try (vm_compute; reflexivity).
  vm_compute. discriminate.
Qed.

(** ** Connect on the handlers that own a reconnect loop *)

Section ReopenLoop.

Variable ConnectFunc : HandlerId -> option error.

Local Abbreviation rbody := (newConnectionHandler_body ConnectFunc).

Lemma newConnectionHandler_body_ok (w : World) :
  ConnectFunc (created w) = None ->
  rbody w =
    (Some (created w),
     mkWorld (trace w ++ [EFactory (created w); EConnect (created w) None])
             (S (created w)) (now w)).
Proof.
  intros H. unfold newConnectionHandler_body, WorldMonad.bind,
    connHandlerFactory, inner_Connect, WorldMonad.emit, WorldMonad.ret,
    WorldMonad.bind. cbn. rewrite H. cbn.
  now rewrite <- app_assoc.
Qed.

Lemma newConnectionHandler_body_fail (w : World) (e : error) :
  ConnectFunc (created w) = Some e ->
  rbody w =
    (None,
     mkWorld (trace w ++ [EFactory (created w);
                          EConnect (created w) (Some e);
                          EClose (created w)])
             (S (created w)) (now w)).
Proof.
  intros H. unfold newConnectionHandler_body, WorldMonad.bind,
    connHandlerFactory, inner_Connect, inner_Close, WorldMonad.emit,
    WorldMonad.ret, WorldMonad.bind. cbn. rewrite H. cbn.
  now rewrite <- !app_assoc.
Qed.

Lemma newConnectionHandler_unfold (fuel : nat) (w : World) :
  newConnectionHandler ConnectFunc (S fuel) w =
  match rbody w with
  | (Some conn, w') => Some (conn, w')
  | (None, w') => newConnectionHandler ConnectFunc fuel w'
  end.
Proof. reflexivity. Qed.


End ReopenLoop.


(** ** The reopen-interval handler: rotation *)


Lemma attempt_event_weaken (lo lo' hi : nat) (e : event) :
  (lo' <= lo)%nat -> attempt_event lo hi e -> attempt_event lo' hi e.
Proof.
  intros Hle. destruct e; cbn; try tauto; intros; intuition lia.
Qed.


Section Rotation.

Variable ConnectFunc : HandlerId -> option error.

(** What a returning [newConnectionHandler] has left in the trace: the
    failed passes, then the creation and the successful connect of the
    handler it returns. *)
Lemma newConnectionHandler_trace (fuel : nat) :
  forall w conn w',
    newConnectionHandler ConnectFunc fuel w = Some (conn, w') ->
    exists pre,
      trace w' = trace w ++ pre ++ [EFactory conn; EConnect conn None] /\
      Forall (attempt_event (created w) conn) pre /\
      (created w <= conn)%nat /\ created w' = S conn.
Proof.
  induction fuel as [|fuel IH]; intros w conn w' H; [discriminate|].
  rewrite newConnectionHandler_unfold in H.
  destruct (ConnectFunc (created w)) as [e|] eqn:E.
  - rewrite (newConnectionHandler_body_fail ConnectFunc w e E) in H.
    apply IH in H. destruct H as (pre & Ht & Hpre & Hle & Hc).
    cbn [trace created] in *.
    exists ([EFactory (created w); EConnect (created w) (Some e);
             EClose (created w)] ++ pre).
    repeat split.
    + rewrite Ht. now rewrite <- !app_assoc.
    + apply Forall_app. split.
      * repeat constructor; cbn; try lia; discriminate.
      * eapply Forall_impl; [|exact Hpre].
        intros a. apply attempt_event_weaken. lia.
    + lia.
    + exact Hc.
  - rewrite (newConnectionHandler_body_ok ConnectFunc w E) in H.
    inversion H; subst. exists []. cbn. repeat split; auto.
Qed.


End Rotation.


Example first_rotation_events :
  Scenario.first_rotation =
  [EFactory 1%nat; EConnect 1%nat None; ELock; EClose 0%nat;
   ESetInner 1%nat; EUnlock].
Proof. reflexivity. Qed.


(** ** Close-reasons *)

Lemma setCloseReason_after_first (errs : list (option error)) :
  forall w, closeReasonOnce w = true -> fold_left setCloseReason errs w = w.
Proof.
  induction errs as [|e errs IH]; intros w Hw; [reflexivity|].
  cbn [fold_left]. unfold setCloseReason at 2. rewrite Hw. now apply IH.
Qed.

Lemma run_select_repair_writes_reason
    (calculator : Z -> Duration) (connDurationThreshold : Duration)
    (b : backoffConnectionHandler) (f : run_frame) (w : World)
    (h : HandlerId) (r : option error) :
  inner b = Some h ->
  exists b' f' w',
    run_select calculator connDurationThreshold (case_innerCloseChan r) b f w
      = Ok (b', f', w') /\
    backoff_CloseErr b' = r.
Proof.
  intros Hin. unfold run_select. rewrite Hin.
  eexists _, _, _. split; reflexivity.
Qed.

(** C5 (amended): the transport connection writes its close-reason under a
    once-guard, so the first value written stays whatever is written later.
    The backoff handler has no such guard: every repair cycle assigns the
    close-reason of the inner handler that just closed, whatever was there
    before, while Close itself does not write it. *)
Theorem close_reason_first_writer_and_backoff_overwrite :
  (forall (e : option error) (errs : list (option error)),
     ws_CloseErr (fold_left setCloseReason errs
                    (setCloseReason NewWebsocketConnection e)) = e) /\
  (forall calculator connDurationThreshold b f w h r,
     inner b = Some h ->
     exists b' f' w',
       run_select calculator connDurationThreshold
                  (case_innerCloseChan r) b f w = Ok (b', f', w') /\
       backoff_CloseErr b' = r) /\
  (forall b w b' w',
     backoff_Close b w = Ok (b', w') ->
     backoff_CloseErr b' = backoff_CloseErr b).
Proof.
  split; [|split].
  - intros e errs. now rewrite setCloseReason_after_first.
  - intros. now apply run_select_repair_writes_reason with (h := h).
  - intros b w b' w' H. unfold backoff_Close in H.
    destruct (closeOnce b); [now inversion H|].
    destruct (inner b); [|discriminate]. now inversion H.
Qed.

Lemma close_reason_first_writer_and_backoff_overwrite_witness :
  inner (with_closeReason (with_inner newBackoffConnectionHandler 0%nat)
           (Some ErrConnectionClosed)) = Some 0%nat /\
  exists b' f' w',
    run_select Scenario.two_seconds_each Second
      (case_innerCloseChan (Some ErrTerminated))
      (with_closeReason (with_inner newBackoffConnectionHandler 0%nat)
         (Some ErrConnectionClosed))
      (mkFrame AtSelect 0%nat 0 0 0%nat) (mkWorld [] 1 0) = Ok (b', f', w') /\
    backoff_CloseErr b' = Some ErrTerminated.
Proof.
  split; [reflexivity|].
  apply (proj1 (proj2 close_reason_first_writer_and_backoff_overwrite)
           Scenario.two_seconds_each Second
           (with_closeReason (with_inner newBackoffConnectionHandler 0%nat)
              (Some ErrConnectionClosed))
           (mkFrame AtSelect 0%nat 0 0 0%nat) (mkWorld [] 1 0) 0%nat
           (Some ErrTerminated)).
  reflexivity.
Defined.

(** C5 as stated fails for the backoff handler: the close-reason written by
    one repair cycle is replaced by the next. *)
Lemma backoff_close_reason_is_overwritten :
  match Scenario.after_first_repair, Scenario.after_second_repair with
  | Ok s1, Ok s2 =>
      backoff_CloseErr (handler s1) = Some ErrConnectionClosed /\
      backoff_CloseErr (handler s2) = Some Scenario.boom /\
      backoff_CloseErr (handler s2) <> backoff_CloseErr (handler s1)
  | _, _ => False
  end.
Proof.
  vm_compute. repeat split; discriminate.
Qed.

(** ** Connect called again *)

(** C6 (amended): on the active keep-alive handler a second or later
    Connect is a no-op: it returns nil and leaves the handler and the world
    as they were. The reopen-interval handler's Connect has no once-guard:
    every call that returns has created and connected a new inner handler,
    installed it as the current inner and spawned another run goroutine. *)
Theorem Connect_again_active_noop_reopen_reconnects
    (ConnectFunc : HandlerId -> option error) :
  (forall h w,
     let '(_, h1, w1) := active_Connect ConnectFunc h w in
     active_Connect ConnectFunc h1 w1 = (None, h1, w1)) /\
  (forall fuel b w err b' f' w',
     reopen_Connect ConnectFunc fuel b w = Some (err, b', f', w') ->
     exists conn pre,
       trace w' = trace w ++ ELock :: pre ++
                    [EFactory conn; EConnect conn None;
                     ESetInner conn; EUnlock; EGo task_run] /\
       reopen_inner b' = Some conn /\
       (created w <= conn)%nat /\ created w' = S conn).
Proof.
  split.
  - intros h w. unfold active_Connect.
    destruct (connectOnce h) eqn:E.
    + cbn. unfold active_Connect. now rewrite E.
    + cbn. reflexivity.
  - intros fuel b w err b' f' w' H. unfold reopen_Connect in H.
    destruct (newConnectionHandler ConnectFunc fuel _) as [[conn w2]|] eqn:E;
      [|discriminate].
    apply newConnectionHandler_trace in E.
    destruct E as (pre & Ht & _ & Hle & Hc).
    inversion H; subst. exists conn, pre.
    unfold WorldMonad.bind, WorldMonad.emit. cbn in *.
    rewrite Ht. repeat split; auto.
    now rewrite <- !app_assoc.
Qed.

Lemma Connect_again_active_noop_reopen_reconnects_witness :
  reopen_Connect Scenario.always_up 1
    (reopen_with_inner newReopenIntervalConn 0%nat) (mkWorld [] 1 0)
  = Some (None, reopen_with_inner newReopenIntervalConn 1%nat,
          mkReopenFrame 0 1%nat,
          mkWorld [ELock; EFactory 1%nat; EConnect 1%nat None;
                   ESetInner 1%nat; EUnlock; EGo task_run] 2 0) /\
  exists conn pre,
    [ELock; EFactory 1%nat; EConnect 1%nat None;
     ESetInner 1%nat; EUnlock; EGo task_run]
    = [] ++ ELock :: pre ++
        [EFactory conn; EConnect conn None;
         ESetInner conn; EUnlock; EGo task_run] /\
    Some 1%nat = Some conn /\
    (1 <= conn)%nat /\ 2%nat = S conn.
Proof.
  split; [reflexivity|].
  exact (proj2 (Connect_again_active_noop_reopen_reconnects
                  Scenario.always_up)
           1%nat (reopen_with_inner newReopenIntervalConn 0%nat)
           (mkWorld [] 1 0) None
           (reopen_with_inner newReopenIntervalConn 1%nat)
           (mkReopenFrame 0 1%nat)
           (mkWorld [ELock; EFactory 1%nat; EConnect 1%nat None;
                     ESetInner 1%nat; EUnlock; EGo task_run] 2 0)
           eq_refl).
Defined.

(** C6 as stated fails for the reopen-interval handler: a second Connect
    connects a second inner handler, makes it the current inner and spawns
    a second run goroutine. *)
Lemma reopen_second_Connect_is_not_a_noop :
  let '(b1, _, w1) :=
    Scenario.reopen_connected Scenario.always_up 1 newReopenIntervalConn
                              Scenario.w0 in
  match Scenario.reopen_second_Connect with
  | Some (_, b2, _, w2) =>
      trace w2 = trace w1 ++ [ELock; EFactory 1%nat; EConnect 1%nat None;
                              ESetInner 1%nat; EUnlock; EGo task_run] /\
      reopen_inner b1 = Some 0%nat /\ reopen_inner b2 = Some 1%nat /\
      trace w2 <> trace w1
  | None => False
  end.
Proof.
  vm_compute. repeat split. discriminate.
Qed.

(** ** The backoff handler: messages and the inner pointer *)

Section InnerPointer.

Variable ConnectFunc : HandlerId -> option error.
Variable calculator : Z -> Duration.
Variable connDurationThreshold : Duration.

Local Abbreviation run_step := (step ConnectFunc calculator connDurationThreshold).
Local Abbreviation run_exec := (exec ConnectFunc calculator connDurationThreshold).






End InnerPointer.



(** ** The event emitter *)

Section EmitterProperties.

Variables K V E : Type.
Variable K_eqb : K -> K -> bool.
Hypothesis K_eqb_eq : forall a b, K_eqb a b = true <-> a = b.

Local Abbreviation get := (Emitter.map_get K V E K_eqb).
Local Abbreviation set := (Emitter.map_set K V E K_eqb).
Local Abbreviation emit := (Emitter.Emit K V E K_eqb).
Local Abbreviation held := (Emitter.held K V E K_eqb).

Lemma K_eqb_refl (k : K) : K_eqb k k = true.
Proof. now apply K_eqb_eq. Qed.

Lemma K_eqb_trans_false (a b c : K) :
  K_eqb a b = true -> K_eqb a c = K_eqb b c.
Proof. intros H. apply K_eqb_eq in H. now subst. Qed.

Lemma map_get_set (m : Emitter.listener_map K V E) (k k' : K) ls :
  get (set m k ls) k' = if K_eqb k k' then Some ls else get m k'.
Proof.
  induction m as [|[k0 ls0] m IH]; cbn.
  - reflexivity.
  - destruct (K_eqb k0 k) eqn:E0; cbn.
    + rewrite (K_eqb_trans_false k0 k k' E0).
      now destruct (K_eqb k k').
    + destruct (K_eqb k0 k') eqn:E1.
      * destruct (K_eqb k k') eqn:E2; [|reflexivity].
        apply K_eqb_eq in E1, E2. subst.
        rewrite K_eqb_refl in E0. discriminate.
      * exact IH.
Qed.

Lemma Emit_held e k v :
  emit e k v = flat_map (fun l => l v) (held e k).
Proof.
  unfold Emitter.Emit, Emitter.held. now destruct (get _ k).
Qed.

Lemma held_On e k l k' :
  held (Emitter.On K V E K_eqb e k l) k' =
  if K_eqb k k' then held e k' ++ [l] else held e k'.
Proof.
  unfold Emitter.held, Emitter.On. cbn [Emitter.listeners].
  rewrite map_get_set.
  destruct (K_eqb k k') eqn:Ek; [|reflexivity].
  apply K_eqb_eq in Ek. now subst.
Qed.

Lemma held_run_ops (ops : list (Emitter.op K V E)) :
  forall e k,
    held (Emitter.run_ops K V E K_eqb ops e) k =
    Emitter.registered_acc K V E K_eqb ops k (held e k).
Proof.
  induction ops as [|o ops IH]; intros e k; [reflexivity|].
  unfold Emitter.run_ops in *. cbn [fold_left Emitter.registered_acc].
  rewrite IH. destruct o as [k0 l|]; cbn [Emitter.apply_op].
  - now rewrite held_On.
  - reflexivity.
Qed.

(** X1: whatever the history of [On] and [Close] calls on an emitter, [Emit]
    calls exactly the listeners registered for that event since the last
    [Close], each once, in registration order, with the data emitted;
    listeners of other events are not called. *)
Theorem Emit_calls_listeners_registered_since_Close
    (ops : list (Emitter.op K V E)) (k : K) (v : V) :
  emit (Emitter.run_ops K V E K_eqb ops Emitter.NewEventEmitter) k v =
  flat_map (fun listener => listener v)
           (Emitter.registered K V E K_eqb ops k).
Proof.
  rewrite Emit_held, held_run_ops. reflexivity.
Qed.

Lemma length_flat_map_one {A B} (f : A -> list B) (l : list A) :
  (forall a, In a l -> List.length (f a) = 1%nat) ->
  List.length (flat_map f l) = List.length l.
Proof.
  induction l as [|a l IH]; intros H; [reflexivity|].
  cbn [flat_map]. rewrite length_app, H by (now left).
  cbn. f_equal. apply IH. intros b Hb. apply H. now right.
Qed.

Lemma length_flat_map_const {A B} (f : A -> list B) (l : list A) (n : nat) :
  (forall a, In a l -> List.length (f a) = n) ->
  List.length (flat_map f l) = (List.length l * n)%nat.
Proof.
  induction l as [|a l IH]; intros H; [reflexivity|].
  cbn [flat_map]. rewrite length_app, H by (now left).
  cbn. f_equal. apply IH. intros b Hb. apply H. now right.
Qed.

Lemma registered_acc_only_On (ls : list (Emitter.callback V E)) (k : K) :
  forall acc,
    Emitter.registered_acc K V E K_eqb
      (map (Emitter.OpOn K V E k) ls) k acc = acc ++ ls.
Proof.
  induction ls as [|l ls IH]; intros acc; cbn.
  - now rewrite app_nil_r.
  - rewrite K_eqb_refl, IH. now rewrite <- app_assoc.
Qed.

(** X2: after N listeners have been registered for an event, each of which
    records one call, emitting M values on that event makes N * M listener
    calls in all. *)
Theorem Emit_N_listeners_M_values
    (ls : list (Emitter.callback V E)) (k : K) (vs : list V) :
  (forall l v, In l ls -> List.length (l v) = 1%nat) ->
  List.length
    (Emitter.emit_all K V E K_eqb
       (Emitter.run_ops K V E K_eqb (map (Emitter.OpOn K V E k) ls)
                        Emitter.NewEventEmitter) k vs)
  = (List.length ls * List.length vs)%nat.
Proof.
  intros Hone. unfold Emitter.emit_all.
  rewrite (length_flat_map_const _ vs (List.length ls)).
  - apply Nat.mul_comm.
  - intros v _. rewrite Emit_held, held_run_ops.
    rewrite registered_acc_only_On. cbn [Emitter.held Emitter.listeners
      Emitter.NewEventEmitter Emitter.map_get app].
    apply length_flat_map_one. intros l Hl. now apply Hone.
Qed.

End EmitterProperties.

Lemma EventType_eqb_eq (a b : EventType) :
  EventType_eqb a b = true <-> a = b.
Proof. destruct a, b; cbn; split; intros H; congruence. Qed.

Lemma Emit_calls_listeners_registered_since_Close_witness :
  (forall a b, EventType_eqb a b = true <-> a = b) /\
  Emitter.Emit EventType EventType EventType EventType_eqb
    (Emitter.run_ops EventType EventType EventType EventType_eqb
       [Emitter.OpOn EventType EventType EventType EventConnect
                     recording_listener;
        Emitter.OpClose;
        Emitter.OpOn EventType EventType EventType EventClose
                     recording_listener;
        Emitter.OpOn EventType EventType EventType EventConnect
                     recording_listener;
        Emitter.OpOn EventType EventType EventType EventConnect
                     recording_listener]
       Emitter.NewEventEmitter)
    EventConnect EventConnect
  = [EventConnect; EventConnect].
Proof.
  split; [exact EventType_eqb_eq|].
  exact (Emit_calls_listeners_registered_since_Close
           EventType EventType EventType EventType_eqb EventType_eqb_eq
           _ EventConnect EventConnect).
Defined.

Lemma Emit_N_listeners_M_values_witness :
  (forall a b, EventType_eqb a b = true <-> a = b) /\
  List.length
    (Emitter.emit_all EventType EventType EventType EventType_eqb
       (Emitter.run_ops EventType EventType EventType EventType_eqb
          (map (Emitter.OpOn EventType EventType EventType EventClose)
               [recording_listener; recording_listener; recording_listener])
          Emitter.NewEventEmitter)
       EventClose [EventClose; EventClose])
  = (3 * 2)%nat.
Proof.
  split; [exact EventType_eqb_eq|].
  apply (Emit_N_listeners_M_values
           EventType EventType EventType EventType_eqb EventType_eqb_eq
           [recording_listener; recording_listener; recording_listener]
           EventClose [EventClose; EventClose]).
  intros l v Hin. cbn in Hin.
  destruct Hin as [<-|[<-|[<-|[]]]]; reflexivity.
Defined.

(** ** The basic client *)

Section ClientProperties.

Variable Connect : HandlerId -> option error.

Lemma client_listeners_after_Open (s s' : Client.state) (err : option error)
    (e : EventType) :
  Client.Open Connect s = Ok (err, s') ->
  Client.listeners_for s' e = Client.listeners_for s e ++ [Client.forward_event]
  /\ err = Connect (Client.produced s)
  /\ Client.produced s' = S (Client.produced s)
  /\ Client.eventEmitter (Client.client s') <> None
  /\ Client.connectionHandler (Client.client s') = Some (Client.produced s)
  /\ Client.effects s' =
       Client.effects s ++ [Client.HandlerFactory (Client.produced s);
                            Client.HandlerConnect (Client.produced s) err].
Proof.
  unfold Client.Open, Client.listeners_for. intros H.
  destruct (Client.eventEmitter (Client.client s)) as [em|]; [|discriminate].
  inversion H; subst; clear H. cbn.
  repeat split; try discriminate.
  unfold Client.On_.
  rewrite !(held_On EventType EventType Client.effect EventType_eqb
              EventType_eqb_eq).
  destruct e; cbn; reflexivity.
Qed.

Lemma client_Emit_listeners (s : Client.state) (e : EventType) :
  Client.eventEmitter (Client.client s) <> None ->
  Client.Emit e s =
    Ok (Client.mkState (Client.client s) (Client.produced s)
          (Client.effects s ++
           flat_map (fun l => l e) (Client.listeners_for s e))).
Proof.
  unfold Client.Emit, Client.listeners_for. intros H.
  destruct (Client.eventEmitter (Client.client s)) as [em|]; [|congruence].
  now rewrite (Emit_held EventType EventType Client.effect EventType_eqb).
Qed.

Lemma user_events_app (a b : list Client.effect) :
  Client.user_events (a ++ b) = Client.user_events a ++ Client.user_events b.
Proof.
  induction a as [|x a IH]; [reflexivity|].
  destruct x; cbn; rewrite ?IH; reflexivity.
Qed.

Lemma user_events_forward (n : nat) (e : EventType) :
  Client.user_events
    (flat_map (fun l : Emitter.callback EventType Client.effect => l e)
              (repeat Client.forward_event n)) = repeat e n.
Proof.
  induction n as [|n IH]; [reflexivity|]. cbn. now rewrite IH.
Qed.

Lemma client_Opens (n : nat) :
  forall s s',
    Client.eventEmitter (Client.client s) <> None ->
    Client.run Connect (repeat Client.COpen n) s = Ok s' ->
    Client.eventEmitter (Client.client s') <> None /\
    Client.user_events (Client.effects s') = Client.user_events (Client.effects s) /\
    forall e,
      Client.listeners_for s' e =
      Client.listeners_for s e ++ repeat Client.forward_event n.
Proof.
  induction n as [|n IH]; intros s s' Hem H.
  - inversion H; subst. repeat split; auto.
    intros e. now rewrite app_nil_r.
  - cbn [repeat Client.run Client.do_call] in H.
    destruct (Client.Open Connect s) as [[err s1]| |] eqn:E;
      try discriminate.
    pose proof (fun e => client_listeners_after_Open s s1 err e E) as H1.
    destruct (H1 EventConnect) as (_ & _ & _ & Hem1 & _ & Heff).
    destruct (IH s1 s' Hem1 H) as (Hem' & Hev & Hl).
    repeat split; auto.
    + rewrite Hev, Heff, user_events_app. cbn. now rewrite app_nil_r.
    + intros e. rewrite Hl. destruct (H1 e) as (-> & _).
      rewrite <- app_assoc. reflexivity.
Qed.

(** X3: [Open] is not guarded: each call registers the three listeners
    again. After n calls of [Open] on a new client, one event emitted by the
    handler stack reaches the user's event handler n times, so exactly once
    after a single [Open]. *)
Theorem client_event_delivered_once_per_Open (n : nat) (e : EventType) :
  exists s,
    Client.run Connect (repeat Client.COpen n ++ [Client.CEmit e])
               Client.fresh = Ok s /\
    Client.user_events (Client.effects s) = repeat e n.
Proof.
  assert (Hrun : forall m s,
            Client.eventEmitter (Client.client s) <> None ->
            exists s', Client.run Connect (repeat Client.COpen m) s = Ok s').
  { induction m as [|m IHm]; intros s Hs; [eexists; reflexivity|].
    cbn [repeat Client.run Client.do_call].
    destruct (Client.Open Connect s) as [[err s1]| |] eqn:E.
    - destruct (client_listeners_after_Open s s1 err EventConnect E)
        as (_ & _ & _ & Hem1 & _).
      apply (IHm s1 Hem1).
    - unfold Client.Open in E.
      destruct (Client.eventEmitter (Client.client s)); discriminate.
    - unfold Client.Open in E.
      destruct (Client.eventEmitter (Client.client s)); congruence. }
  destruct (Hrun n Client.fresh) as (s1 & H1); [discriminate|].
  destruct (client_Opens n Client.fresh s1 ltac:(discriminate) H1)
    as (Hem & Hev & Hl).
  assert (Happ : forall cs1 cs2 s s',
            Client.run Connect cs1 s = Ok s' ->
            Client.run Connect (cs1 ++ cs2) s = Client.run Connect cs2 s').
  { induction cs1 as [|c cs1 IHc]; intros cs2 s s' H.
    - now inversion H.
    - cbn [app Client.run] in *.
      destruct (Client.do_call Connect c s); try discriminate.
      now apply IHc. }
  rewrite (Happ _ [Client.CEmit e] _ _ H1).
  cbn [Client.run Client.do_call].
  rewrite (client_Emit_listeners s1 e Hem).
  eexists. split; [reflexivity|]. cbn [Client.effects].
  rewrite user_events_app, Hev, Hl. cbn.
  apply user_events_forward.
Qed.

Lemma user_messages_app (a b : list Client.effect) :
  Client.user_messages (a ++ b) =
  Client.user_messages a ++ Client.user_messages b.
Proof.
  induction a as [|x a IH]; [reflexivity|].
  destruct x; cbn; rewrite ?IH; reflexivity.
Qed.

Lemma handler_recvs_app (a b : list Client.effect) :
  Client.handler_recvs (a ++ b) =
  Client.handler_recvs a ++ Client.handler_recvs b.
Proof.
  induction a as [|x a IH]; [reflexivity|].
  destruct x; cbn; rewrite ?IH; reflexivity.
Qed.

(** X4: of the inbound messages the handler stack hands to the client's
    wrapper, the user's message callback receives exactly the data messages
    and the current handler's [Recv] exactly the others, each in arrival
    order; nothing is delivered twice or dropped. *)
Theorem client_routes_data_to_user_and_rest_to_handler
    (ms : list Message) (s : Client.state) (h : HandlerId) :
  Client.connectionHandler (Client.client s) = Some h ->
  exists s',
    Client.run Connect (map Client.CDeliver ms) s = Ok s' /\
    Client.user_messages (Client.effects s') =
      Client.user_messages (Client.effects s)
      ++ filter (fun m => IsData (Type_ m)) ms /\
    Client.handler_recvs (Client.effects s') =
      Client.handler_recvs (Client.effects s)
      ++ map (pair h) (filter (fun m => negb (IsData (Type_ m))) ms) /\
    List.length (Client.effects s') =
      (List.length (Client.effects s) + List.length ms)%nat.
Proof.
  revert s. induction ms as [|m ms IH]; intros s Hh.
  - exists s. cbn. rewrite !app_nil_r. repeat split; auto.
  - cbn [map Client.run Client.do_call]. unfold Client.Deliver,
      Client.handlerWrapper. rewrite Hh.
    destruct (IsData (Type_ m)) eqn:Ed.
    + destruct (IH (Client.mkState (Client.client s) (Client.produced s)
                      (Client.effects s ++ [Client.UserMessage m])) Hh)
        as (s' & Hr & Hu & Hre & Hlen).
      exists s'. split; [exact Hr|]. cbn [Client.effects] in *.
      rewrite Hu, Hre, Hlen, user_messages_app, handler_recvs_app,
        length_app. cbn. rewrite Ed. cbn.
      rewrite ?app_nil_r, <- ?app_assoc. cbn. repeat split; auto. lia.
    + destruct (IH (Client.mkState (Client.client s) (Client.produced s)
                      (Client.effects s ++ [Client.HandlerRecv h m])) Hh)
        as (s' & Hr & Hu & Hre & Hlen).
      exists s'. split; [exact Hr|]. cbn [Client.effects] in *.
      rewrite Hu, Hre, Hlen, user_messages_app, handler_recvs_app,
        length_app. cbn. rewrite Ed. cbn.
      rewrite ?app_nil_r, <- ?app_assoc. cbn. repeat split; auto. lia.
Qed.

(** X5: after [Close], whatever listeners had been registered, an event
    emitted by the handler stack no longer reaches the user's event handler;
    [Close] calls [Close] on the current handler once, and on a client that
    was never opened it calls nothing. *)
Theorem client_Close_silences_events (s : Client.state) (e : EventType) :
  Client.eventEmitter (Client.client s) <> None ->
  exists s',
    Client.run Connect [Client.CClose; Client.CEmit e] s = Ok s' /\
    Client.effects s' =
      Client.effects s ++
      match Client.connectionHandler (Client.client s) with
      | Some h => [Client.HandlerClose h]
      | None => []
      end /\
    Client.user_events (Client.effects s') =
      Client.user_events (Client.effects s) /\
    forall e', Client.listeners_for s' e' = [].
Proof.
  intros Hem. cbn [Client.run Client.do_call].
  unfold Client.Emit, Client.Close. cbn.
  destruct (Client.eventEmitter (Client.client s)) as [em|]; [|congruence].
  cbn. eexists. split; [reflexivity|]. cbn. rewrite app_nil_r.
  repeat split.
  rewrite user_events_app.
  destruct (Client.connectionHandler (Client.client s)); cbn;
    now rewrite app_nil_r.
Qed.

End ClientProperties.

Lemma client_routes_data_to_user_and_rest_to_handler_witness :
  Client.connectionHandler
    (Client.client
       (Client.mkState (Client.mkClient (Some 0%nat)
                          (Some Emitter.NewEventEmitter)) 1 [])) = Some 0%nat /\
  exists s',
    Client.run Scenario.always_up
      (map Client.CDeliver
         [NewDataMessage [Byte.x01]; Scenario.ping; NewDataMessage [Byte.x02]])
      (Client.mkState (Client.mkClient (Some 0%nat)
                         (Some Emitter.NewEventEmitter)) 1 []) = Ok s' /\
    Client.user_messages (Client.effects s') =
      [] ++ [NewDataMessage [Byte.x01]; NewDataMessage [Byte.x02]] /\
    Client.handler_recvs (Client.effects s') =
      [] ++ [(0%nat, Scenario.ping)].
Proof.
  split; [reflexivity|].
  destruct (client_routes_data_to_user_and_rest_to_handler
              Scenario.always_up
              [NewDataMessage [Byte.x01]; Scenario.ping;
               NewDataMessage [Byte.x02]]
              (Client.mkState (Client.mkClient (Some 0%nat)
                                 (Some Emitter.NewEventEmitter)) 1 [])
              0%nat eq_refl)
    as (s' & Hr & Hu & Hre & _).
  exists s'. repeat split; assumption.
Defined.

Lemma client_Close_silences_events_witness :
  Client.eventEmitter (Client.client Client.fresh) <> None /\
  exists s',
    Client.run Scenario.always_up [Client.CClose; Client.CEmit EventClose]
               Client.fresh = Ok s' /\
    Client.effects s' = [] /\
    Client.user_events (Client.effects s') = [].
Proof.
  split; [discriminate|].
  destruct (client_Close_silences_events Scenario.always_up Client.fresh
              EventClose ltac:(discriminate))
    as (s' & Hr & He & Hu & _).
  exists s'. repeat split; assumption.
Defined.

(** ** The transport connection *)

(** X6: without an [OnDial] adapter, [handleDialError] returns nil exactly
    when the response is not a 429 and the dial error is nil; a 429 response
    yields an error matching ErrRateLimit (and not ErrCannotConnect) even
    when there also is a dial error, and any other dial failure yields an
    error matching ErrCannotConnect (and not ErrRateLimit). *)
Theorem handleDialError_default_classes
    (conn : Conn) (resp : option http_Response) (err : option error) :
  let r := handleDialError None conn resp err in
  (r = None <->
   Transport.is_too_many_requests resp = false /\ err = None) /\
  (Transport.is_too_many_requests resp = true ->
   errors_Is r ErrRateLimit = true /\ errors_Is r ErrCannotConnect = false) /\
  (Transport.is_too_many_requests resp = false -> err <> None ->
   errors_Is r ErrCannotConnect = true /\ errors_Is r ErrRateLimit = false).
Proof.
  cbv zeta. unfold handleDialError, Transport.is_too_many_requests.
  destruct resp as [r|]; [destruct (StatusCode r =? StatusTooManyRequests)|];
    destruct err as [e|]; cbn; repeat split;
    try discriminate; try congruence;
    try (intros [H1 H2]; discriminate);
    try (intros H; discriminate H); tauto.
Qed.

Lemma handleDialError_default_classes_witness :
  Transport.is_too_many_requests (Some Scenario.too_many_requests) = true /\
  errors_Is (handleDialError None None (Some Scenario.too_many_requests)
               (Some (errors_New "bad handshake"))) ErrRateLimit = true /\
  errors_Is (handleDialError None None (Some Scenario.too_many_requests)
               (Some (errors_New "bad handshake"))) ErrCannotConnect = false.
Proof.
  split; [reflexivity|].
  exact (proj1 (proj2 (handleDialError_default_classes
                         None (Some Scenario.too_many_requests)
                         (Some (errors_New "bad handshake"))))
               eq_refl).
Defined.

(** X7: when the dial fails and the response is not a 429, the error the
    default handling returns makes the connecting loop of the backoff
    handler take its ErrCannotConnect branch: it sleeps exactly one second,
    whatever the calculator says, counts the attempt and retries. *)
Theorem dial_failure_is_retried_after_one_second
    (conn : Conn) (resp : option http_Response) (e : error)
    (ConnectFunc : HandlerId -> option error) (calculator : Z -> Duration)
    (a : Z) (w : World) :
  Transport.is_too_many_requests resp = false ->
  ConnectFunc (created w) = handleDialError None conn resp (Some e) ->
  newConnHandler_body ConnectFunc calculator a w =
    (Int64.add a 1, None,
     mkWorld (trace w ++
              [EFactory (created w);
               EConnect (created w)
                        (Some (withMessage ErrCannotConnect (Error e)));
               ESleep Second])
             (S (created w)) (now w + Z.max 0 Second)).
Proof.
  intros H429 Hc.
  assert (Hr : handleDialError None conn resp (Some e)
               = Some (withMessage ErrCannotConnect (Error e))).
  { unfold handleDialError. unfold Transport.is_too_many_requests in H429.
    destruct resp as [r|]; [|reflexivity]. now rewrite H429. }
  rewrite Hr in Hc.
  now apply newConnHandler_body_cannot.
Qed.

Lemma dial_failure_is_retried_after_one_second_witness :
  Transport.is_too_many_requests None = false /\
  TransportScenario.dial_refused (created Scenario.w0) =
    handleDialError None None None (Some (errors_New "connection refused")) /\
  newConnHandler_body TransportScenario.dial_refused
                      Scenario.two_seconds_each 0 Scenario.w0 =
    (1, None,
     mkWorld [EFactory 0%nat;
              EConnect 0%nat
                (Some (withMessage ErrCannotConnect "connection refused"));
              ESleep Second]
             1 Second).
Proof.
  split; [reflexivity|]. split; [reflexivity|].
  exact (dial_failure_is_retried_after_one_second
           None None (errors_New "connection refused")
           TransportScenario.dial_refused Scenario.two_seconds_each
           0 Scenario.w0 eq_refl eq_refl).
Defined.

(** X8: [start] returns nil exactly when it has spawned the [read] and
    [write] goroutines, and it then keeps the socket [Dial] returned, which
    is a socket unless [Dial] returned none. When the parameters getter
    fails its error is returned as it is and nothing is dialled; when the
    dial is classified as an error nothing is spawned and the socket is not
    kept. *)
Theorem start_spawns_loops_iff_it_returns_nil
    (OnDial : option ErrAdapter) (params_err : option error) (conn : Conn)
    (resp : option http_Response) (err : option error)
    (c c' : Transport.conn_state) (r : option error) :
  Transport.start OnDial params_err conn resp err c = Ok (r, c') ->
  (forall e, params_err = Some e -> r = Some e /\ c' = c) /\
  (r = None ->
   (Transport.opened c' = true <-> conn <> None) /\
   Transport.wire_log c' =
     Transport.wire_log c ++
     [Transport.WDial; Transport.WGo_read; Transport.WGo_write]) /\
  (r <> None ->
   Transport.opened c' = Transport.opened c /\
   ~ In Transport.WGo_read (skipn (List.length (Transport.wire_log c))
                                  (Transport.wire_log c')) /\
   ~ In Transport.WGo_write (skipn (List.length (Transport.wire_log c))
                                   (Transport.wire_log c'))).
Proof.
  unfold Transport.start. intros H.
  destruct params_err as [pe|].
  - inversion H; subst; clear H. split; [|split].
    + intros e He. now inversion He.
    + discriminate.
    + intros _. rewrite skipn_all. cbn. auto.
  - split; [discriminate|].
    destruct (handleDialError OnDial conn resp err) as [de|].
    + inversion H; subst; clear H. cbn. split; [discriminate|].
      intros _. rewrite skipn_app, skipn_all, Nat.sub_diag. cbn.
      split; [reflexivity|]. split; intros [F|[]]; discriminate.
    + inversion H; subst; clear H. cbn. split; [|congruence].
      intros _. split; [|now rewrite <- app_assoc].
      destruct conn; split; intros; congruence.
Qed.

Lemma start_spawns_loops_iff_it_returns_nil_witness :
  Transport.start None None (Some 7%nat) None None Transport.new_conn
    = Ok (None, TransportScenario.open_conn) /\
  (Transport.opened TransportScenario.open_conn = true
   <-> Some 7%nat <> None) /\
  Transport.wire_log TransportScenario.open_conn =
    [] ++ [Transport.WDial; Transport.WGo_read; Transport.WGo_write].
Proof.
  split; [reflexivity|].
  exact (proj1 (proj2 (start_spawns_loops_iff_it_returns_nil
                         None None (Some 7%nat) None None Transport.new_conn
                         TransportScenario.open_conn None eq_refl))
               eq_refl).
Defined.

Section TransportLoops.

Import Transport.

Lemma log_nil (c : conn_state) : log c [] = c.
Proof. destruct c. unfold log. cbn. now rewrite app_nil_r. Qed.

Lemma write_msg_log (msg : Message) (out : option io_error) (c : conn_state) :
  wire_log (write_msg msg out c) = wire_log c ++ frame_of msg /\
  closeOnce (write_msg msg out c) = closeOnce c /\
  opened (write_msg msg out c) = opened c.
Proof.
  unfold write_msg. destruct (write_err msg out); cbn; auto.
Qed.

(** X9: whatever messages [write] takes from the send channel and whatever
    the write calls return, the frames put on the wire are those of the
    ping, pong and data messages, in order and one each; a message of any
    other kind (binary, close) leaves no frame. A write error never ends
    the loop, closes the socket or fires the close channel. *)
Theorem write_puts_ping_pong_data_on_the_wire
    (sends : list (Message * option io_error)) :
  forall c,
  exists c',
    conn_run (map (fun s => OpWrite (wc_send (fst s) (snd s))) sends) c
      = Ok c' /\
    wire_log c' = wire_log c ++ flat_map frame_of (map fst sends) /\
    closeOnce c' = closeOnce c /\
    (forall msg,
       Type_ msg <> PingMessage -> Type_ msg <> PongMessage ->
       Type_ msg <> DataMessage -> frame_of msg = []) /\
    (forall msg,
       Type_ msg = PingMessage \/ Type_ msg = PongMessage \/
       Type_ msg = DataMessage -> List.length (frame_of msg) = 1%nat).
Proof.
  induction sends as [|[msg out] sends IH]; intros c.
  - exists c. cbn. rewrite app_nil_r. repeat split.
    + intros msg H1 H2 H3. unfold frame_of.
      apply Z.eqb_neq in H1, H2, H3. now rewrite H1, H2, H3.
    + intros msg [H|[H|H]]; unfold frame_of; rewrite H; reflexivity.
  - destruct (IH (write_msg msg out c)) as (c' & Hr & Hl & Hc & Hn & Hy).
    exists c'. cbn [map conn_run conn_step write_step fst snd flat_map].
    split; [exact Hr|].
    destruct (write_msg_log msg out c) as (Hl1 & Hc1 & _).
    rewrite Hl, Hc, Hl1, Hc1, <- app_assoc. repeat split; assumption.
Qed.

(** X10: a temporary network error is dropped when it comes from a ping
    write, and no close-reason is recorded; the same error on a pong or data
    write records a close-reason that wraps ErrConnectionClosed. *)
Theorem temporary_error_is_dropped_for_pings_only
    (data : list Byte.byte) (text : string) (c : conn_state) :
  closeReasonOnce (guard c) = false ->
  CloseErr (write_msg (NewPingMessage data) (Some (net_Error true text)) c)
    = CloseErr c /\
  closeReasonOnce
    (guard (write_msg (NewPingMessage data) (Some (net_Error true text)) c))
    = false /\
  CloseErr (write_msg (NewPongMessage data) (Some (net_Error true text)) c)
    = Some (withMessage ErrConnectionClosed text) /\
  CloseErr (write_msg (NewDataMessage data) (Some (net_Error true text)) c)
    = Some (withMessage ErrConnectionClosed text) /\
  CloseErr (write_msg (NewPingMessage data) (Some (net_Error false text)) c)
    = Some (withMessage ErrConnectionClosed text).
Proof.
  intros Hg. unfold write_msg, CloseErr, set_reason, ws_CloseErr. cbn.
  unfold setCloseReason. rewrite Hg. cbn. repeat split; auto.
Qed.

(** X11: everything that arrives while [read] runs is pushed to the receive
    channel as exactly one message, in order of arrival, with the bytes that
    arrived as payload. A frame returned by [ReadMessage] becomes a binary
    message when its type is binary, a close message when its type is close,
    with the frame type 8 as its code, and a data message for any other
    type; a ping, pong or close frame given to its handler becomes a ping,
    pong or close message, the last with the code received. *)
Theorem read_delivers_every_arrival_once (arrivals : list arrival) :
  forall c,
    closeOnce c = false ->
    exists c',
      conn_run (map (fun a => OpRead (read_case_of a)) arrivals) c = Ok c' /\
      wire_log c' =
        wire_log c ++ map (fun a => WRecv (message_of a)) arrivals /\
      map (fun a => Data (message_of a)) arrivals = map payload arrivals /\
      closeOnce c' = false /\
      (forall t bts,
         Type_ (message_of (InFrame t bts)) =
           (if t =? ws_BinaryMessage then BinaryMessage
            else if t =? ws_CloseMessage then CloseError
            else DataMessage)) /\
      (forall bts,
         message_of (InFrame ws_CloseMessage bts) = NewCloseMessage 8 bts) /\
      (forall d, Type_ (message_of (InPing d)) = PingMessage) /\
      (forall d, Type_ (message_of (InPong d)) = PongMessage) /\
      (forall code text,
         message_of (InClose code text) = NewCloseMessage code text).
Proof.
  induction arrivals as [|a arrivals IH]; intros c Hc.
  - exists c. cbn. rewrite app_nil_r. repeat split; auto.
    intros t bts. unfold message_of_frame.
    destruct (t =? ws_BinaryMessage); [reflexivity|].
    destruct (t =? ws_CloseMessage); reflexivity.
  - destruct (IH (log c [WRecv (message_of a)]) Hc)
      as (c' & Hr & Hl & Hp & Hc' & Hk).
    exists c'. split.
    + cbn [map conn_run conn_step]. destruct a; cbn [read_case_of read_step];
        rewrite Hc; exact Hr.
    + split; [|split; [|split; [exact Hc'|exact Hk]]].
      * rewrite Hl. cbn. now rewrite <- app_assoc.
      * cbn [map]. rewrite Hp. f_equal.
        destruct a; cbn; try reflexivity.
        unfold message_of_frame.
        destruct (messageType =? ws_BinaryMessage); [reflexivity|].
        destruct (messageType =? ws_CloseMessage); reflexivity.
Qed.








End TransportLoops.





Lemma temporary_error_is_dropped_for_pings_only_witness :
  closeReasonOnce (Transport.guard TransportScenario.open_conn) = false /\
  Transport.CloseErr
    (Transport.write_msg (NewPingMessage [])
       (Some TransportScenario.timeout_error) TransportScenario.open_conn)
    = None /\
  Transport.CloseErr
    (Transport.write_msg (NewPongMessage [])
       (Some TransportScenario.timeout_error) TransportScenario.open_conn)
    = Some (withMessage ErrConnectionClosed "i/o timeout").
Proof.
  split; [reflexivity|].
  destruct (temporary_error_is_dropped_for_pings_only
              [] "i/o timeout" TransportScenario.open_conn eq_refl)
    as (H1 & _ & H2 & _).
  split; [exact H1 | exact H2].
Defined.

Lemma read_delivers_every_arrival_once_witness :
  Transport.closeOnce TransportScenario.open_conn = false /\
  exists c',
    Transport.conn_run
      (map (fun a => Transport.OpRead (Transport.read_case_of a))
           [Transport.InFrame 1 [Byte.x01]; Transport.InPing [Byte.x02];
            Transport.InClose 1000 []])
      TransportScenario.open_conn = Ok c' /\
    Transport.wire_log c' =
      Transport.wire_log TransportScenario.open_conn ++
      [Transport.WRecv (NewDataMessage [Byte.x01]);
       Transport.WRecv (NewPingMessage [Byte.x02]);
       Transport.WRecv (NewCloseMessage 1000 [])].
Proof.
  split; [reflexivity|].
  destruct (read_delivers_every_arrival_once
              [Transport.InFrame 1 [Byte.x01]; Transport.InPing [Byte.x02];
               Transport.InClose 1000 []]
              TransportScenario.open_conn eq_refl)
    as (c' & Hr & Hl & _).
  exists c'. split; [exact Hr | exact Hl].
Defined.

(** ** The connecting loop of the backoff handler, in full *)

Section BackoffTrace.

Variable ConnectFunc : HandlerId -> option error.
Variable calculator : Z -> Duration.

Lemma newConnHandler_body_fail (a : Z) (w : World) (e : error) :
  ConnectFunc (created w) = Some e ->
  let d := if errors_Is (Some e) ErrCannotConnect then Second
           else calculator (Int64.add a 1) in
  newConnHandler_body ConnectFunc calculator a w =
    (Int64.add a 1, None,
     mkWorld (trace w ++ [EFactory (created w);
                          EConnect (created w) (Some e); ESleep d])
             (S (created w)) (now w + Z.max 0 d)).
Proof.
  intros H. cbv zeta.
  destruct (errors_Is (Some e) ErrCannotConnect) eqn:E.
  - now apply newConnHandler_body_cannot.
  - now apply newConnHandler_body_other.
Qed.

Lemma flat_map_seq_shift {A} (f : nat -> list A) (k : nat) :
  flat_map f (seq 1 k) = flat_map (fun j => f (S j)) (seq 0 k).
Proof.
  rewrite <- seq_shift. rewrite !flat_map_concat_map, map_map. reflexivity.
Qed.

Lemma newConnHandler_loop_trace (fuel : nat) :
  forall a w ch w',
    Int64.min_int <= a -> a + Z.of_nat fuel < Int64.max_int ->
    newConnHandler_loop ConnectFunc calculator fuel a w = Some (ch, w') ->
    exists k,
      (k < fuel)%nat /\ ch = (created w + k)%nat /\
      (forall j, (j < k)%nat -> ConnectFunc (created w + j)%nat <> None) /\
      ConnectFunc ch = None /\
      created w' = S ch /\
      trace w' =
        trace w ++
        flat_map (backoff_failed_pass ConnectFunc calculator (created w) a)
                 (seq 0 k) ++
        [EFactory ch; EConnect ch None].
Proof.
  induction fuel as [|fuel IH]; intros a w ch w' Hlo Hhi H; [discriminate|].
  cbn [newConnHandler_loop] in H.
  destruct (ConnectFunc (created w)) as [e|] eqn:E.
  - rewrite (newConnHandler_body_fail a w e E) in H.
    rewrite (add_one_small a) in H by lia.
    apply IH in H; [|lia|lia].
    destruct H as (k & Hk & Hch & Hf & Hok & Hc & Ht).
    cbn [created trace] in *.
    exists (S k). repeat split.
    + lia.
    + lia.
    + intros j Hj. destruct j as [|j].
      * rewrite Nat.add_0_r, E. discriminate.
      * replace (created w + S j)%nat with (S (created w) + j)%nat by lia.
        apply Hf. lia.
    + exact Hok.
    + exact Hc.
    + rewrite Ht. change (seq 0 (S k)) with (0%nat :: seq 1 k).
      cbn [flat_map]. rewrite flat_map_seq_shift.
      assert (Hext :
                flat_map (fun j => backoff_failed_pass ConnectFunc calculator
                                     (created w) a (S j)) (seq 0 k) =
                flat_map (backoff_failed_pass ConnectFunc calculator
                            (S (created w)) (a + 1)) (seq 0 k)).
      { apply flat_map_ext. intros j. unfold backoff_failed_pass.
        replace (S (created w) + j)%nat with (created w + S j)%nat by lia.
        replace (a + 1 + Z.of_nat (S j)) with (a + Z.of_nat (S (S j)))
          by lia.
        reflexivity. }
      rewrite Hext.
      assert (H0 : backoff_failed_pass ConnectFunc calculator
                     (created w) a 0 =
                   [EFactory (created w); EConnect (created w) (Some e);
                    ESleep (if errors_Is (Some e) ErrCannotConnect
                            then Second else calculator (a + 1))]).
      { unfold backoff_failed_pass. now rewrite Nat.add_0_r, E. }
      rewrite H0, <- !app_assoc. reflexivity.
  - rewrite (newConnHandler_body_ok ConnectFunc calculator a w E) in H.
    inversion H; subst; clear H. exists O. cbn.
    rewrite Nat.add_0_r. repeat split; auto; try lia.
Qed.

(** X14: a returning [newConnHandler] leaves exactly this in the trace: for
    each failed attempt, in order, the creation of a handler, its failed
    [Connect] and one sleep, of one second when the error matches
    ErrCannotConnect and of f(j) otherwise, where j counts all attempts made
    so far, this one included; then the creation and the successful
    [Connect] of the handler returned. A handler that failed to connect is
    never closed, and nothing else happens between attempts. *)
Theorem newConnHandler_full_trace
    (fuel : nat) (w : World) (ch : HandlerId) (w' : World) :
  Z.of_nat fuel < Int64.max_int ->
  newConnHandler ConnectFunc calculator fuel w = Some (ch, w') ->
  exists k,
    ch = (created w + k)%nat /\
    (forall j, (j < k)%nat -> ConnectFunc (created w + j)%nat <> None) /\
    ConnectFunc ch = None /\
    trace w' =
      trace w ++
      flat_map (backoff_failed_pass ConnectFunc calculator (created w) 0)
               (seq 0 k) ++
      [EFactory ch; EConnect ch None] /\
    closes (trace w') = closes (trace w).
Proof.
  intros Hf H. unfold newConnHandler in H.
  apply newConnHandler_loop_trace in H;
    [|unfold Int64.min_int; lia|lia].
  destruct H as (k & _ & Hch & Hfail & Hok & _ & Ht).
  exists k. repeat split; auto.
  rewrite Ht. clear.
  assert (Happ : forall a b, closes (a ++ b) = closes a ++ closes b).
  { induction a as [|x a IH]; intros b; [reflexivity|].
    destruct x; cbn; rewrite ?IH; reflexivity. }
  rewrite !Happ.
  assert (Hz : closes (flat_map
                         (backoff_failed_pass ConnectFunc calculator
                                              (created w) 0) (seq 0 k)) = []).
  { induction (seq 0 k) as [|j l IHl]; [reflexivity|].
    cbn [flat_map]. rewrite Happ, IHl. reflexivity. }
  rewrite Hz. cbn. now rewrite app_nil_r.
Qed.

End BackoffTrace.

Lemma newConnHandler_full_trace_witness :
  3 < Int64.max_int /\
  exists w' k,
    newConnHandler TransportScenario.dial_refused Scenario.two_seconds_each
                   3 Scenario.w0 = Some (1%nat, w') /\
    1%nat = (created Scenario.w0 + k)%nat /\
    trace w' =
      trace Scenario.w0 ++
      flat_map (backoff_failed_pass TransportScenario.dial_refused
                  Scenario.two_seconds_each (created Scenario.w0) 0)
               (seq 0 k) ++
      [EFactory 1%nat; EConnect 1%nat None].
Proof.
  split; [unfold Int64.max_int; lia|].
  assert (Hrun : newConnHandler TransportScenario.dial_refused
                   Scenario.two_seconds_each 3 Scenario.w0
                 = Some (1%nat,
                         Scenario.run_of
                           (match newConnHandler
                                    TransportScenario.dial_refused
                                    Scenario.two_seconds_each 3 Scenario.w0
                            with
                            | Some (_, w') => Ok w'
                            | None => Blocks
                            end) Scenario.w0))
    by (vm_compute; reflexivity).
  destruct (newConnHandler_full_trace
              TransportScenario.dial_refused Scenario.two_seconds_each
              3 Scenario.w0 1%nat _
              ltac:(unfold Int64.max_int; cbn; lia) Hrun)
    as (k & Hk & _ & _ & Ht & _).
  eexists. exists k. split; [exact Hrun|]. split; [exact Hk | exact Ht].
Defined.

(** ** The backoff handler as a whole *)

Section BackoffMachine.

Variable ConnectFunc : HandlerId -> option error.
Variable calculator : Z -> Duration.
Variable connDurationThreshold : Duration.

Local Abbreviation bstep :=
  (step ConnectFunc calculator connDurationThreshold).
Local Abbreviation bexec :=
  (exec ConnectFunc calculator connDurationThreshold).

Lemma exec_app (a1 a2 : list action) :
  forall s s1, bexec a1 s = Ok s1 -> bexec (a1 ++ a2) s = bexec a2 s1.
Proof.
  induction a1 as [|a a1 IH]; intros s s1 H.
  - now inversion H.
  - cbn [app exec] in *.
    destruct (bstep a s); try discriminate. now apply IH.
Qed.

Lemma step_keeps_deferred (a : action) (s s' : system) (f : run_frame) :
  frame s = Some f -> bstep a s = Ok s' ->
  exists f', frame s' = Some f' /\ deferred f' = deferred f.
Proof.
  intros Hf H. unfold step in H. destruct a.
  - unfold backoff_Send in H.
    destruct (List.length (send (handler s)) <? chanCap)%nat;
      [|discriminate]. inversion H; subst. eauto.
  - unfold backoff_Recv in H.
    destruct (List.length (recv (handler s)) <? chanCap)%nat;
      [|discriminate]. inversion H; subst. eauto.
  - destruct (backoff_Close (handler s) (world s)) as [[b w]| |];
      try discriminate. inversion H; subst. eauto.
  - rewrite Hf in H. destruct (pc f); try discriminate.
    destruct (run_select _ _ c (handler s) f (world s))
      as [[[b f'] w]| |] eqn:E; try discriminate.
    inversion H; subst; clear H. exists f'. split; [reflexivity|].
    unfold run_select in E. destruct c.
    + now inversion E; subst.
    + destruct (closeC (handler s)); [now inversion E; subst|discriminate].
    + destruct (recv (handler s)); [discriminate|].
      destruct (inner (handler s)); now inversion E; subst.
    + destruct (send (handler s)); [discriminate|].
      destruct (inner (handler s)); now inversion E; subst.
    + destruct (inner (handler s)); [|discriminate]. now inversion E; subst.
  - rewrite Hf in H. destruct (pc f) as [|a|]; try discriminate.
    unfold run_attempt in H.
    destruct (newConnHandler_body ConnectFunc calculator a (world s))
      as [[a' [ch|]] w']; inversion H; subst; cbn;
      eexists; split; reflexivity.
  - destruct (0 <=? d); [|discriminate]. inversion H; subst. eauto.
Qed.

Lemma exec_keeps_deferred (acts : list action) :
  forall s s' f,
    frame s = Some f -> bexec acts s = Ok s' ->
    exists f', frame s' = Some f' /\ deferred f' = deferred f.
Proof.
  induction acts as [|a acts IH]; intros s s' f Hf H.
  - inversion H; subst. eauto.
  - cbn [exec] in H. destruct (bstep a s) as [s1| |] eqn:E; try discriminate.
    destruct (step_keeps_deferred a s s1 f Hf E) as (f1 & Hf1 & Hd1).
    destruct (IH s1 s' f1 Hf1 H) as (f' & Hf' & Hd').
    exists f'. split; [exact Hf'|congruence].
Qed.

(** X15: when [run] returns because the context is done, its deferred
    [Close] goes to the inner handler of the first connection, the one
    [Connect] opened, however many reconnects have replaced it since; [run]
    does not close the current inner handler on that path. *)
Theorem run_return_closes_the_first_inner
    (fuel : nat) (b0 : backoffConnectionHandler) (w0 : World)
    (r : option error) (s0 s : system) (acts : list action) (f : run_frame) :
  backoff_Connect ConnectFunc calculator fuel b0 w0 = Some (r, s0) ->
  bexec acts s0 = Ok s ->
  frame s = Some f -> pc f = AtSelect ->
  exists h0 s',
    inner (handler s0) = Some h0 /\
    bstep (Select case_ctx_Done) s = Ok s' /\
    trace (world s') = trace (world s) ++ [EClose h0] /\
    handler s' = handler s /\
    option_map pc (frame s') = Some Returned.
Proof.
  intros Hc He Hf Hpc.
  unfold backoff_Connect in Hc.
  destruct (newConnHandler ConnectFunc calculator fuel w0) as [[ch w1]|];
    [|discriminate].
  cbn in Hc. inversion Hc; subst; clear Hc.
  eapply exec_keeps_deferred in He; [|reflexivity].
  destruct He as (f' & Hf' & Hd).
  rewrite Hf in Hf'. inversion Hf'; subst f'. cbn in Hd.
  exists ch. eexists. split; [reflexivity|].
  unfold step. rewrite Hf, Hpc. cbn. rewrite Hd.
  repeat split.
Qed.

Lemma send_calls_enqueue (ms : list Message) :
  forall s,
    (List.length (send (handler s)) + List.length ms <= chanCap)%nat ->
    bexec (map CallSend ms) s =
      Ok (mkSystem (with_send (handler s) (send (handler s) ++ ms))
                   (frame s) (world s)).
Proof.
  induction ms as [|m ms IH]; intros s Hlen.
  - cbn. rewrite app_nil_r. destruct s as [[] ? ?]; reflexivity.
  - cbn [map exec step lift_handler]. unfold backoff_Send.
    cbn [List.length] in Hlen.
    assert (Hlt : (List.length (send (handler s)) <? chanCap)%nat = true)
      by (apply Nat.ltb_lt; lia).
    rewrite Hlt. cbn [lift_handler]. rewrite IH.
    + cbn. now rewrite <- app_assoc.
    + cbn. rewrite length_app. cbn. lia.
Qed.

Lemma send_selects_forward (q : list Message) :
  forall s f h,
    frame s = Some f -> pc f = AtSelect ->
    inner (handler s) = Some h -> send (handler s) = q ->
    bexec (repeat (Select case_send) (List.length q)) s =
      Ok (mkSystem (with_send (handler s) [])
                   (frame s)
                   (mkWorld (trace (world s) ++ map (ESend h) q)
                            (created (world s)) (now (world s)))).
Proof.
  induction q as [|m q IH]; intros s f h Hf Hpc Hin Hq.
  - cbn. rewrite app_nil_r.
    destruct s as [[] ? []]; cbn in *; subst; reflexivity.
  - cbn [List.length repeat exec step]. rewrite Hf, Hpc.
    unfold run_select. rewrite Hq, Hin.
    unfold inner_Send, WorldMonad.emit. cbn [snd].
    erewrite IH; cbn; eauto.
    now rewrite <- app_assoc.
Qed.

(** X16: messages passed to [Send] while [run] is at its select are
    forwarded to the current inner handler in the order of the calls, each
    exactly once: after the calls and as many turns of the send case, the
    inner handler has received them all and the queue is empty. *)
Theorem backoff_forwards_sends_in_order
    (ms : list Message) (s : system) (f : run_frame) (h : HandlerId) :
  frame s = Some f -> pc f = AtSelect ->
  inner (handler s) = Some h -> send (handler s) = [] ->
  (List.length ms <= 32)%nat ->
  exists s',
    bexec (map CallSend ms ++ repeat (Select case_send) (List.length ms)) s
      = Ok s' /\
    trace (world s') = trace (world s) ++ map (ESend h) ms /\
    send (handler s') = [] /\
    inner (handler s') = Some h.
Proof.
  intros Hf Hpc Hin Hq Hlen.
  pose proof (send_calls_enqueue ms s) as H1.
  rewrite Hq in H1. cbn [List.length app] in H1.
  specialize (H1 Hlen).
  rewrite (exec_app _ _ _ _ H1).
  rewrite (send_selects_forward ms
             (mkSystem (with_send (handler s) ms) (frame s) (world s))
             f h Hf Hpc Hin eq_refl).
  eexists. split; [reflexivity|]. cbn. repeat split. exact Hin.
Qed.

(** X17: [Close] on a connected handler is idempotent: however many times
    it is called, [closeC] is closed and the current inner handler is
    closed exactly once, by the first call; afterwards the select of [run]
    can take the [closeC] case. *)
Theorem backoff_Close_is_idempotent
    (n : nat) (s : system) (h : HandlerId) :
  inner (handler s) = Some h -> closeOnce (handler s) = false ->
  exists s',
    bexec (repeat CallClose (S n)) s = Ok s' /\
    trace (world s') = trace (world s) ++ [EClose h] /\
    closeC (handler s') = true /\
    frame s' = frame s /\
    forall f, run_select calculator connDurationThreshold case_closeC
                (handler s') f (world s') <> Blocks.
Proof.
  intros Hin Hon.
  set (s1 := mkSystem (with_closed (handler s)) (frame s)
                      (snd (inner_Close h (world s)))).
  assert (H1 : bstep CallClose s = Ok s1).
  { unfold step, backoff_Close. now rewrite Hon, Hin. }
  assert (Hrest : forall k, bexec (repeat CallClose k) s1 = Ok s1).
  { assert (H2 : bstep CallClose s1 = Ok s1) by reflexivity.
    induction k as [|k IHk]; [reflexivity|].
    cbn [repeat exec]. rewrite H2. exact IHk. }
  exists s1. cbn [repeat exec]. rewrite H1. split; [apply Hrest|].
  subst s1. cbn. repeat split. intros f. discriminate.
Qed.

Lemma quick_cycle_runs (reason : option error) (s : system) (f : run_frame)
    (h : HandlerId) :
  frame s = Some f -> pc f = AtSelect -> inner (handler s) = Some h ->
  ConnectFunc (created (world s)) = None ->
  let a' := repair_attempts connDurationThreshold reason
              (now (world s) - then_ f) (attempts f) in
  let c := created (world s) in
  let t := now (world s) + Z.max 0 (calculator a') in
  bexec (quick_cycle reason) s =
    Ok (mkSystem (with_inner (with_closeReason (handler s) reason) c)
                 (Some (mkFrame AtSelect c a' t (deferred f)))
                 (mkWorld (trace (world s) ++
                           [EClose h; ESleep (calculator a');
                            EFactory c; EConnect c None;
                            EGo (task_Emit EventReconnect)])
                          (S c) t)).
Proof.
  intros Hf Hpc Hin Hok. cbv zeta.
  unfold quick_cycle. cbn [exec step]. rewrite Hf, Hpc.
  unfold run_select. rewrite Hin. cbn [frame pc].
  unfold run_attempt.
  rewrite (newConnHandler_body_ok ConnectFunc calculator 0 _)
    by (cbn; exact Hok).
  cbn. rewrite <- !app_assoc. reflexivity.
Qed.

Lemma short_lived_cycle_runs (reason : option error) (d : Duration)
    (s : system) (f : run_frame) (h : HandlerId) :
  frame s = Some f -> pc f = AtSelect -> inner (handler s) = Some h ->
  ConnectFunc (created (world s)) = None ->
  0 <= d ->
  let a' := repair_attempts connDurationThreshold reason
              (now (world s) + d - then_ f) (attempts f) in
  let c := created (world s) in
  let t := now (world s) + d + Z.max 0 (calculator a') in
  bexec (Elapse d :: quick_cycle reason) s =
    Ok (mkSystem (with_inner (with_closeReason (handler s) reason) c)
                 (Some (mkFrame AtSelect c a' t (deferred f)))
                 (mkWorld (trace (world s) ++
                           [EClose h; ESleep (calculator a');
                            EFactory c; EConnect c None;
                            EGo (task_Emit EventReconnect)])
                          (S c) t)).
Proof.
  intros Hf Hpc Hin Hok Hd. cbv zeta.
  cbn [exec step].
  assert (Hb : (0 <=? d) = true) by (apply Z.leb_le; exact Hd).
  rewrite Hb.
  apply (quick_cycle_runs reason
           (mkSystem (handler s) (frame s)
              (mkWorld (trace (world s)) (created (world s))
                       (now (world s) + d))) f h Hf Hpc Hin Hok).
Qed.

Lemma short_lived_cycles_count (ds : list Duration) :
  forall s f h a reason,
    frame s = Some f -> pc f = AtSelect -> inner (handler s) = Some h ->
    then_ f = now (world s) -> attempts f = a ->
    Forall (fun d => 0 <= d <= connDurationThreshold) ds ->
    Int64.min_int <= a -> a + Z.of_nat (List.length ds) < Int64.max_int ->
    (forall j, ConnectFunc (created (world s) + j)%nat = None) ->
    reason <> None ->
    errors_Is reason ErrConnectionClosed || errors_Is reason ErrTerminated
      = true ->
    exists s' f',
      bexec (short_lived_cycles reason ds) s = Ok s' /\
      frame s' = Some f' /\ pc f' = AtSelect /\
      attempts f' = a + Z.of_nat (List.length ds) /\
      sleeps (trace (world s')) =
        sleeps (trace (world s)) ++
        map (fun j => calculator (a + Z.of_nat j))
            (seq 1 (List.length ds)).
Proof.
  induction ds as [|d ds IH];
    intros s f h a reason Hf Hpc Hin Hthen Ha Hds Hlo Hhi Hok Hnn Hhit.
  - exists s, f. cbn. rewrite app_nil_r, Z.add_0_r. auto.
  - cbn [short_lived_cycles List.length] in *.
    inversion Hds as [|d0 ds0 Hd Hds']; subst d0 ds0.
    pose proof (short_lived_cycle_runs reason d s f h Hf Hpc Hin) as H1.
    rewrite <- (Nat.add_0_r (created (world s))) in H1 at 1.
    specialize (H1 (Hok O) (proj1 Hd)). cbv zeta in H1.
    assert (Hrep : repair_attempts connDurationThreshold reason
                     (now (world s) + d - then_ f) (attempts f) = a + 1).
    { unfold repair_attempts. destruct reason as [e|]; [|congruence].
      rewrite Hhit, Hthen.
      replace (now (world s) + d - now (world s)) with d by lia.
      assert (E : (connDurationThreshold <? d) = false)
        by (apply Z.ltb_ge; lia).
      rewrite E, Ha. apply add_one_small. lia. }
    rewrite Hrep in H1.
    change (Elapse d :: quick_cycle reason ++ short_lived_cycles reason ds)
      with ((Elapse d :: quick_cycle reason) ++ short_lived_cycles reason ds).
    rewrite (exec_app _ _ _ _ H1).
    match type of H1 with _ = Ok ?S1 => set (s1 := S1) in * end.
    destruct (IH s1
                (mkFrame AtSelect (created (world s)) (a + 1)
                   (now (world s) + d + Z.max 0 (calculator (a + 1)))
                   (deferred f))
                (created (world s)) (a + 1) reason)
      as (s' & f' & Hr & Hf' & Hpc' & Hat & Hsl);
      [reflexivity | reflexivity | reflexivity | reflexivity | reflexivity
      | assumption | lia | lia | | assumption | assumption | ].
    + intros j. subst s1. cbn. specialize (Hok (S j)).
      now rewrite Nat.add_succ_r in Hok.
    + subst s1. exists s', f'. split; [exact Hr|]. split; [exact Hf'|].
      split; [exact Hpc'|]. split; [lia|].
      rewrite Hsl. cbn [world trace]. rewrite sleeps_app. cbn [sleeps].
      rewrite <- app_assoc. f_equal.
      change (seq 1 (S (List.length ds)))
        with (1%nat :: seq 2 (List.length ds)).
      rewrite <- (seq_shift (List.length ds) 1), map_cons, map_map.
      cbn [app]. f_equal. apply map_ext. intros j. f_equal. lia.
Qed.

(** X18: when the inner handler of a connected backoff handler closes k
    times in a row with ErrConnectionClosed or ErrTerminated, each time
    after a lifetime that does not exceed connDurationThreshold, and every
    reconnect succeeds at once, the attempt counter goes up by one each time
    and ends at k, and the waits before the reconnects are f(1), ..., f(k). *)
Theorem backoff_counts_consecutive_short_lived_closes
    (lifetimes : list Duration) (b0 : backoffConnectionHandler) (w0 : World)
    (r : option error) (s0 : system) (reason : error) :
  Forall (fun d => 0 <= d <= connDurationThreshold) lifetimes ->
  Z.of_nat (List.length lifetimes) < Int64.max_int ->
  (forall h, ConnectFunc h = None) ->
  errors_Is (Some reason) ErrConnectionClosed
  || errors_Is (Some reason) ErrTerminated = true ->
  backoff_Connect ConnectFunc calculator 1 b0 w0 = Some (r, s0) ->
  exists s f,
    bexec (short_lived_cycles (Some reason) lifetimes) s0 = Ok s /\
    frame s = Some f /\
    attempts f = Z.of_nat (List.length lifetimes) /\
    sleeps (trace (world s)) =
      sleeps (trace (world s0)) ++
      map (fun j => calculator (Z.of_nat j))
          (seq 1 (List.length lifetimes)).
Proof.
  intros Hds Hk Hok Hhit Hc.
  unfold backoff_Connect in Hc.
  destruct (newConnHandler ConnectFunc calculator 1 w0) as [[ch w1]|];
    [|discriminate].
  cbn in Hc. inversion Hc; subst; clear Hc.
  destruct (short_lived_cycles_count lifetimes
              (mkSystem (with_inner b0 ch)
                 (Some (mkFrame AtSelect ch 0 (now w1) ch))
                 (mkWorld (trace w1 ++ [EGo task_run]) (created w1) (now w1)))
              (mkFrame AtSelect ch 0 (now w1) ch) ch 0 (Some reason))
    as (s & f & Hr & Hf & _ & Hat & Hsl);
    [reflexivity | reflexivity | reflexivity | reflexivity | reflexivity
    | assumption | unfold Int64.min_int; lia | lia | | discriminate
    | assumption | ].
  - intros j. apply Hok.
  - exists s, f. split; [exact Hr|]. split; [exact Hf|].
    split; [exact Hat | exact Hsl].
Qed.

End BackoffMachine.

Lemma run_return_closes_the_first_inner_witness :
  inner (handler BackoffScenario.reconnected) = Some 1%nat /\
  exists h0 s',
    inner (handler (Scenario.connected Scenario.always_up
                      Scenario.two_seconds_each 1)) = Some h0 /\
    h0 = 0%nat /\
    step Scenario.always_up Scenario.two_seconds_each Scenario.threshold
         (Select case_ctx_Done) BackoffScenario.reconnected = Ok s' /\
    trace (world s') =
      trace (world BackoffScenario.reconnected) ++ [EClose h0].
Proof.
  split; [vm_compute; reflexivity|].
  assert (Hc : backoff_Connect Scenario.always_up Scenario.two_seconds_each 1
                 newBackoffConnectionHandler Scenario.w0
               = Some (None, Scenario.connected Scenario.always_up
                               Scenario.two_seconds_each 1))
    by (vm_compute; reflexivity).
  assert (He : exec Scenario.always_up Scenario.two_seconds_each
                    Scenario.threshold
                    (quick_cycle (Some ErrConnectionClosed))
                    (Scenario.connected Scenario.always_up
                       Scenario.two_seconds_each 1)
               = Ok BackoffScenario.reconnected)
    by (vm_compute; reflexivity).
  assert (Hf : frame BackoffScenario.reconnected
               = Some BackoffScenario.reconnected_frame)
    by (vm_compute; reflexivity).
  destruct (run_return_closes_the_first_inner
              Scenario.always_up Scenario.two_seconds_each Scenario.threshold
              1 newBackoffConnectionHandler Scenario.w0 None _ _ _ _
              Hc He Hf eq_refl)
    as (h0 & s' & Hin & Hs & Ht & _).
  exists h0, s'. split; [exact Hin|]. split; [|split; assumption].
  assert (H0 : inner (handler (Scenario.connected Scenario.always_up
                                 Scenario.two_seconds_each 1)) = Some 0%nat)
    by (vm_compute; reflexivity).
  rewrite H0 in Hin. now inversion Hin.
Defined.

Lemma backoff_forwards_sends_in_order_witness :
  let s := Scenario.connected Scenario.always_up
             Scenario.two_seconds_each 1 in
  send (handler s) = [] /\
  exists s',
    exec Scenario.always_up Scenario.two_seconds_each Scenario.threshold
      (map CallSend [Scenario.ping; BackoffScenario.hello] ++
       repeat (Select case_send) 2) s = Ok s' /\
    trace (world s') =
      trace (world s) ++
      [ESend 0%nat Scenario.ping; ESend 0%nat BackoffScenario.hello].
Proof.
  intros s. split; [vm_compute; reflexivity|].
  assert (Hf : frame s = Some (mkFrame AtSelect 0%nat 0 0 0%nat))
    by (vm_compute; reflexivity).
  assert (Hin : inner (handler s) = Some 0%nat) by (vm_compute; reflexivity).
  assert (Hq : send (handler s) = []) by (vm_compute; reflexivity).
  destruct (backoff_forwards_sends_in_order
              Scenario.always_up Scenario.two_seconds_each Scenario.threshold
              [Scenario.ping; BackoffScenario.hello] s _ 0%nat
              Hf eq_refl Hin Hq ltac:(cbn; lia))
    as (s' & Hr & Ht & _).
  exists s'. split; [exact Hr | exact Ht].
Defined.

Lemma backoff_Close_is_idempotent_witness :
  let s := Scenario.connected Scenario.always_up
             Scenario.two_seconds_each 1 in
  closeOnce (handler s) = false /\
  exists s',
    exec Scenario.always_up Scenario.two_seconds_each Scenario.threshold
         (repeat CallClose 3) s = Ok s' /\
    trace (world s') = trace (world s) ++ [EClose 0%nat] /\
    closeC (handler s') = true.
Proof.
  intros s.
  assert (Hin : inner (handler s) = Some 0%nat) by (vm_compute; reflexivity).
  assert (Hon : closeOnce (handler s) = false) by (vm_compute; reflexivity).
  split; [exact Hon|].
  destruct (backoff_Close_is_idempotent
              Scenario.always_up Scenario.two_seconds_each Scenario.threshold
              2 s 0%nat Hin Hon)
    as (s' & Hr & Ht & Hc & _).
  exists s'. repeat split; assumption.
Defined.

Lemma backoff_counts_consecutive_short_lived_closes_witness :
  Forall (fun d => 0 <= d <= Scenario.threshold) [0; 5; Scenario.threshold] /\
  exists s f,
    exec Scenario.always_up Scenario.two_seconds_each Scenario.threshold
      (short_lived_cycles (Some ErrConnectionClosed)
                          [0; 5; Scenario.threshold])
      (Scenario.connected Scenario.always_up Scenario.two_seconds_each 1)
      = Ok s /\
    frame s = Some f /\
    attempts f = 3 /\
    sleeps (trace (world s)) =
      sleeps (trace (world (Scenario.connected Scenario.always_up
                              Scenario.two_seconds_each 1))) ++
      map (fun j => Scenario.two_seconds_each (Z.of_nat j)) (seq 1 3).
Proof.
  assert (Hds : Forall (fun d => 0 <= d <= Scenario.threshold)
                       [0; 5; Scenario.threshold]).
  { repeat constructor; unfold Scenario.threshold; lia. }
  split; [exact Hds|].
  assert (Hc : backoff_Connect Scenario.always_up Scenario.two_seconds_each 1
                 newBackoffConnectionHandler Scenario.w0
               = Some (None, Scenario.connected Scenario.always_up
                               Scenario.two_seconds_each 1))
    by (vm_compute; reflexivity).
  exact (backoff_counts_consecutive_short_lived_closes
           Scenario.always_up Scenario.two_seconds_each Scenario.threshold
           [0; 5; Scenario.threshold] newBackoffConnectionHandler
           Scenario.w0 None _ ErrConnectionClosed Hds
           ltac:(unfold Int64.max_int; cbn; lia)
           (fun h => eq_refl) eq_refl Hc).
Defined.

(** ** The reopen-interval handler as a whole *)

Lemma closes_app (a b : list event) : closes (a ++ b) = closes a ++ closes b.
Proof.
  induction a as [|x a IH]; [reflexivity|].
  destruct x; cbn; rewrite ?IH; reflexivity.
Qed.

Section ReopenMachine.

Variable ConnectFunc : HandlerId -> option error.

Lemma newConnectionHandler_full (fuel : nat) :
  forall w conn w',
    newConnectionHandler ConnectFunc fuel w = Some (conn, w') ->
    exists k,
      (k < fuel)%nat /\ conn = (created w + k)%nat /\
      (forall j, (j < k)%nat -> ConnectFunc (created w + j)%nat <> None) /\
      ConnectFunc conn = None /\
      created w' = S conn /\ now w' = now w /\
      trace w' =
        trace w ++
        flat_map (reopen_failed_pass ConnectFunc (created w)) (seq 0 k) ++
        [EFactory conn; EConnect conn None].
Proof.
  induction fuel as [|fuel IH]; intros w conn w' H; [discriminate|].
  rewrite newConnectionHandler_unfold in H.
  destruct (ConnectFunc (created w)) as [e|] eqn:E.
  - rewrite (newConnectionHandler_body_fail ConnectFunc w e E) in H.
    apply IH in H. destruct H as (k & Hk & Hc & Hf & Hok & Hcr & Hn & Ht).
    cbn [created trace now] in *.
    exists (S k). repeat split; auto; try lia.
    + intros j Hj. destruct j as [|j].
      * rewrite Nat.add_0_r, E. discriminate.
      * replace (created w + S j)%nat with (S (created w) + j)%nat by lia.
        apply Hf. lia.
    + rewrite Ht. change (seq 0 (S k)) with (0%nat :: seq 1 k).
      cbn [flat_map]. rewrite flat_map_seq_shift.
      assert (Hext :
                flat_map (fun j => reopen_failed_pass ConnectFunc
                                     (created w) (S j)) (seq 0 k) =
                flat_map (reopen_failed_pass ConnectFunc (S (created w)))
                         (seq 0 k)).
      { apply flat_map_ext. intros j. unfold reopen_failed_pass.
        now replace (S (created w) + j)%nat with (created w + S j)%nat
          by lia. }
      rewrite Hext.
      assert (H0 : reopen_failed_pass ConnectFunc (created w) 0 =
                   [EFactory (created w); EConnect (created w) (Some e);
                    EClose (created w)]).
      { unfold reopen_failed_pass. now rewrite Nat.add_0_r, E. }
      rewrite H0, <- !app_assoc. reflexivity.
  - rewrite (newConnectionHandler_body_ok ConnectFunc w E) in H.
    inversion H; subst; clear H. exists O. cbn.
    rewrite Nat.add_0_r. repeat split; auto; try lia.
Qed.

Lemma closes_reopen_failed (base k : nat) :
  closes (flat_map (reopen_failed_pass ConnectFunc base) (seq 0 k)) =
  map (fun j => (base + j)%nat) (seq 0 k).
Proof.
  induction (seq 0 k) as [|j l IH]; [reflexivity|].
  cbn [flat_map map]. rewrite closes_app, IH. reflexivity.
Qed.

Lemma sleeps_reopen_failed (base : nat) (l : list nat) :
  sleeps (flat_map (reopen_failed_pass ConnectFunc base) l) = [].
Proof.
  induction l as [|j l IH]; [reflexivity|].
  cbn [flat_map]. rewrite sleeps_app, IH. reflexivity.
Qed.

(** X19: a returning [newConnectionHandler] leaves exactly this in the
    trace: for each failed attempt, in order, the creation of a handler, its
    failed [Connect] and its [Close]; then the creation and the successful
    [Connect] of the handler returned. It never sleeps between attempts,
    and every handler that failed to connect has been closed before the
    next one is created. *)
Theorem newConnectionHandler_full_trace
    (fuel : nat) (w : World) (conn : HandlerId) (w' : World) :
  newConnectionHandler ConnectFunc fuel w = Some (conn, w') ->
  exists k,
    conn = (created w + k)%nat /\
    (forall j, (j < k)%nat -> ConnectFunc (created w + j)%nat <> None) /\
    ConnectFunc conn = None /\
    trace w' =
      trace w ++
      flat_map (reopen_failed_pass ConnectFunc (created w)) (seq 0 k) ++
      [EFactory conn; EConnect conn None] /\
    closes (trace w') =
      closes (trace w) ++ map (fun j => (created w + j)%nat) (seq 0 k) /\
    sleeps (trace w') = sleeps (trace w) /\
    now w' = now w.
Proof.
  intros H. apply newConnectionHandler_full in H.
  destruct H as (k & _ & Hc & Hf & Hok & _ & Hn & Ht).
  exists k. repeat split; auto.
  - rewrite Ht, !closes_app, closes_reopen_failed. cbn.
    now rewrite app_nil_r.
  - rewrite Ht, !sleeps_app, sleeps_reopen_failed. cbn.
    now rewrite app_nil_r.
Qed.

Lemma reopen_run_select_inv (fuel : nat) (c : reopen_case)
    (b b' : reopenIntervalConnectionHandler) (f f' : reopen_frame)
    (w w' : World) :
  reopen_inner b = Some (closeChan f) ->
  ConnectFunc (closeChan f) = None ->
  reopen_run_select ConnectFunc fuel c b f w = Some (Ok (b', Some f', w')) ->
  reopen_inner b' = Some (closeChan f') /\
  ConnectFunc (closeChan f') = None.
Proof.
  intros Hin Hok H. unfold reopen_run_select in H. destruct c.
  - discriminate.
  - destruct (newConnectionHandler ConnectFunc fuel w) as [[n w1]|] eqn:E;
      [|discriminate].
    rewrite Hin in H. inversion H; subst; clear H. cbn.
    apply newConnectionHandler_full in E.
    destruct E as (k & _ & _ & _ & Hn & _). auto.
  - destruct (newConnectionHandler ConnectFunc fuel w) as [[n w1]|] eqn:E;
      [|discriminate].
    inversion H; subst; clear H. cbn.
    apply newConnectionHandler_full in E.
    destruct E as (k & _ & _ & _ & Hn & _). auto.
Qed.

Lemma reopen_run_inv (fuel : nat) (cases : list reopen_case) :
  forall b f w b' f' w',
    reopen_inner b = Some (closeChan f) ->
    ConnectFunc (closeChan f) = None ->
    reopen_run ConnectFunc fuel cases b f w = Some (Ok (b', Some f', w')) ->
    reopen_inner b' = Some (closeChan f') /\
    ConnectFunc (closeChan f') = None.
Proof.
  induction cases as [|c cases IH]; intros b f w b' f' w' Hin Hok H.
  - cbn in H. inversion H; subst. auto.
  - cbn [reopen_run] in H.
    destruct (reopen_run_select ConnectFunc fuel c b f w)
      as [[[[b1 [f1|]] w1]| |]|] eqn:E; try discriminate.
    destruct (reopen_run_select_inv fuel c b b1 f f1 w w1 Hin Hok E)
      as (Hin1 & Hok1).
    eapply IH; eauto.
Qed.

(** X21: from [Connect] on and through any number of scheduled rotations
    and unexpected closes, as long as [run] has not returned, the handler
    holds an inner handler whose [Connect] succeeded, the close channel
    [run] watches is that handler's, and [Send] and [Recv] go to it. *)
Theorem reopen_run_watches_the_current_inner
    (fuel fuel' : nat) (cases : list reopen_case)
    (b0 b1 b : reopenIntervalConnectionHandler) (f1 f : reopen_frame)
    (w0 w1 w : World) (err : option error) (m : Message) :
  reopen_Connect ConnectFunc fuel b0 w0 = Some (err, b1, f1, w1) ->
  reopen_run ConnectFunc fuel' cases b1 f1 w1 = Some (Ok (b, Some f, w)) ->
  reopen_inner b = Some (closeChan f) /\
  ConnectFunc (closeChan f) = None /\
  reopen_Send b m w =
    Ok (mkWorld (trace w ++ [ESend (closeChan f) m]) (created w) (now w)) /\
  reopen_Recv b m w =
    Ok (mkWorld (trace w ++ [ERecv (closeChan f) m]) (created w) (now w)).
Proof.
  intros Hc Hr. unfold reopen_Connect in Hc.
  destruct (newConnectionHandler ConnectFunc fuel _) as [[conn w2]|] eqn:E;
    [|discriminate].
  inversion Hc; subst; clear Hc.
  apply newConnectionHandler_full in E.
  destruct E as (k & _ & _ & _ & Hok & _).
  destruct (reopen_run_inv fuel' cases _ _ _ b f w
              (eq_refl : reopen_inner (reopen_with_inner b0 conn)
                         = Some (closeChan (mkReopenFrame 0 conn)))
              Hok Hr) as (Hin & Hok').
  split; [exact Hin|]. split; [exact Hok'|].
  unfold reopen_Send, reopen_Recv. rewrite Hin. split; reflexivity.
Qed.

End ReopenMachine.

(** ** The active keep-alive handler as a whole *)

Section ActiveMachine.

Variable ConnectFunc : HandlerId -> option error.

Lemma active_Connects_done (n : nat) :
  forall h w,
    connectOnce h = true ->
    active_Connects ConnectFunc n h w = (repeat None n, h, w).
Proof.
  induction n as [|n IH]; intros h w Hh; [reflexivity|].
  cbn [active_Connects]. unfold active_Connect. rewrite Hh.
  cbn. rewrite IH by exact Hh. reflexivity.
Qed.

(** X22: of any number of [Connect] calls on a new active keep-alive
    handler only the first does anything: it calls the inner handler's
    [Connect] once, spawns [run] whether that succeeded or not, and returns
    the inner result; every later call returns nil, also when the first one
    failed, and the inner [Connect] is never retried. *)
Theorem active_Connect_runs_once
    (n : nat) (ch : HandlerId) (interval : Duration) (w : World) :
  active_Connects ConnectFunc (S n)
    (newActiveKeepAliveConnectionHandler ch interval) w =
  (ConnectFunc ch :: repeat None n,
   mkActive ch interval true false false,
   mkWorld (trace w ++ [EConnect ch (ConnectFunc ch); EGo task_run])
           (created w) (now w)).
Proof.
  cbn [active_Connects]. unfold active_Connect at 1.
  cbn. rewrite active_Connects_done by reflexivity.
  rewrite <- app_assoc. reflexivity.
Qed.

Lemma active_ticks (ms : list Message) :
  forall s,
    0 < pingInterval (active_handler s) ->
    active_running s = true ->
    active_exec ConnectFunc (map (fun m => ATurn (acase_tick m)) ms) s =
    Ok (mkActiveSystem (active_handler s) true
          (mkWorld (trace (active_world s) ++
                    map (ESend (active_inner (active_handler s))) ms)
                   (created (active_world s)) (now (active_world s)))).
Proof.
  induction ms as [|m ms IH]; intros s Hi Hr.
  - cbn. rewrite app_nil_r. destruct s as [h r [t c n]]. cbn in *.
    now subst.
  - cbn [map active_exec active_step]. rewrite Hr.
    assert (Hp : (pingInterval (active_handler s) <=? 0) = false)
      by (apply Z.leb_gt; exact Hi).
    rewrite Hp.
    rewrite IH by (cbn; auto). cbn. now rewrite <- app_assoc.
Qed.

Lemma active_exec_app (o1 o2 : list active_op) :
  forall s s1,
    active_exec ConnectFunc o1 s = Ok s1 ->
    active_exec ConnectFunc (o1 ++ o2) s = active_exec ConnectFunc o2 s1.
Proof.
  induction o1 as [|o o1 IH]; intros s s1 H.
  - now inversion H.
  - cbn [app active_exec] in *.
    destruct (active_step ConnectFunc o s); try discriminate. now apply IH.
Qed.

(** X23: after [Connect], every tick of the ticker sends exactly one
    keep-alive message to the inner handler, in order; [Close], however
    often it is called, closes the inner handler once, and when [run] then
    takes the [closeC] case it returns, after which no tick sends
    anything. The ticker needs a positive interval. *)
Theorem active_keep_alive_ticks_until_closed
    (ch : HandlerId) (interval : Duration) (w : World)
    (ms : list Message) (n : nat) :
  0 < interval ->
  exists s,
    active_exec ConnectFunc
      ([AConnect] ++ map (fun m => ATurn (acase_tick m)) ms ++
       repeat AClose (S n) ++ [ATurn acase_closeC])
      (mkActiveSystem (newActiveKeepAliveConnectionHandler ch interval)
                      false w) = Ok s /\
    trace (active_world s) =
      trace w ++ [EConnect ch (ConnectFunc ch); EGo task_run] ++
      map (ESend ch) ms ++ [EClose ch] /\
    active_running s = false /\
    forall m, active_step ConnectFunc (ATurn (acase_tick m)) s = Blocks.
Proof.
  intros Hi.
  assert (Hp : (interval <=? 0) = false) by (apply Z.leb_gt; exact Hi).
  set (h1 := mkActive ch interval true false false).
  set (w1 := mkWorld (trace w ++ [EConnect ch (ConnectFunc ch); EGo task_run])
                     (created w) (now w)).
  assert (H1 : active_exec ConnectFunc [AConnect]
                 (mkActiveSystem
                    (newActiveKeepAliveConnectionHandler ch interval) false w)
               = Ok (mkActiveSystem h1 true w1)).
  { cbn. unfold WorldMonad.bind, WorldMonad.emit. cbn.
    subst w1. now rewrite <- app_assoc. }
  rewrite (active_exec_app _ _ _ _ H1).
  pose proof (active_ticks ms (mkActiveSystem h1 true w1) Hi eq_refl) as H2.
  rewrite (active_exec_app _ _ _ _ H2). cbn [active_handler active_world
    active_inner h1 trace created now w1].
  set (w2 := mkWorld ((trace w ++ [EConnect ch (ConnectFunc ch);
                                   EGo task_run]) ++ map (ESend ch) ms)
                     (created w) (now w)).
  set (h3 := mkActive ch interval true true true).
  set (w3 := mkWorld (trace w2 ++ [EClose ch]) (created w) (now w)).
  assert (H3 : forall k,
             active_exec ConnectFunc (repeat AClose k)
                         (mkActiveSystem h3 true w3)
             = Ok (mkActiveSystem h3 true w3)).
  { induction k as [|k IHk]; [reflexivity|].
    cbn [repeat active_exec active_step]. cbn. exact IHk. }
  assert (H4 : active_exec ConnectFunc (repeat AClose (S n))
                 (mkActiveSystem h1 true w2)
               = Ok (mkActiveSystem h3 true w3)).
  { cbn [repeat active_exec active_step]. cbn. apply H3. }
  rewrite (active_exec_app _ _ _ _ H4).
  cbn [active_exec active_step active_running active_handler pingInterval
       h3 active_closeC]. rewrite Hp.
  eexists. split; [reflexivity|]. cbn.
  split; [now rewrite <- !app_assoc|]. split; reflexivity.
Qed.

End ActiveMachine.

Lemma active_keep_alive_ticks_until_closed_witness :
  0 < 20 * 1000000 /\
  exists s,
    active_exec Scenario.always_up
      ([AConnect] ++
       map (fun m => ATurn (acase_tick m))
           [keepAliveMessage PingMessage []; keepAliveMessage PingMessage []]
       ++ repeat AClose 2 ++ [ATurn acase_closeC])
      (mkActiveSystem
         (newActiveKeepAliveConnectionHandler 0%nat (20 * 1000000))
         false Scenario.w0) = Ok s /\
    trace (active_world s) =
      trace Scenario.w0 ++ [EConnect 0%nat None; EGo task_run] ++
      map (ESend 0%nat)
          [keepAliveMessage PingMessage []; keepAliveMessage PingMessage []]
      ++ [EClose 0%nat] /\
    active_running s = false.
Proof.
  split; [lia|].
  destruct (active_keep_alive_ticks_until_closed
              Scenario.always_up 0%nat (20 * 1000000) Scenario.w0
              [keepAliveMessage PingMessage [];
               keepAliveMessage PingMessage []] 1 ltac:(lia))
    as (s & Hr & Ht & Hrun & _).
  exists s. repeat split; assumption.
Defined.

Lemma newConnectionHandler_full_trace_witness :
  newConnectionHandler Scenario.fail_twice 3 Scenario.w0
    = Some (2%nat, ReopenScenario.third_connects) /\
  closes (trace ReopenScenario.third_connects) = [0%nat; 1%nat] /\
  exists k,
    2%nat = (created Scenario.w0 + k)%nat /\
    trace ReopenScenario.third_connects =
      trace Scenario.w0 ++
      flat_map (reopen_failed_pass Scenario.fail_twice (created Scenario.w0))
               (seq 0 k) ++
      [EFactory 2%nat; EConnect 2%nat None] /\
    sleeps (trace ReopenScenario.third_connects) = sleeps (trace Scenario.w0).
Proof.
  split; [reflexivity|]. split; [reflexivity|].
  destruct (newConnectionHandler_full_trace Scenario.fail_twice 3 Scenario.w0
              2%nat ReopenScenario.third_connects eq_refl)
    as (k & Hk & _ & _ & Ht & _ & Hs & _).
  exists k. repeat split; assumption.
Defined.


Lemma reopen_run_watches_the_current_inner_witness :
  let '(b1, f1, w1) :=
    Scenario.reopen_connected Scenario.always_up 1 newReopenIntervalConn
                              Scenario.w0 in
  let '(b, f, w) := ReopenScenario.rotated_twice in
  reopen_Connect Scenario.always_up 1 newReopenIntervalConn Scenario.w0
    = Some (None, b1, f1, w1) /\
  reopen_run Scenario.always_up 1 [rcase_ticker; rcase_closeChan] b1 f1 w1
    = Some (Ok (b, Some f, w)) /\
  reopen_inner b = Some 2%nat /\
  reopen_inner b = Some (closeChan f) /\
  reopen_Send b Scenario.ping w =
    Ok (mkWorld (trace w ++ [ESend (closeChan f) Scenario.ping])
                (created w) (now w)).
Proof.
  destruct (Scenario.reopen_connected Scenario.always_up 1
              newReopenIntervalConn Scenario.w0) as [[b1 f1] w1] eqn:E1.
  destruct ReopenScenario.rotated_twice as [[b f] w] eqn:E2.
  vm_compute in E1. inversion E1; subst; clear E1.
  vm_compute in E2. inversion E2; subst; clear E2.
  assert (Hc : reopen_Connect Scenario.always_up 1 newReopenIntervalConn
                 Scenario.w0
               = Some (None, mkReopen (Some 0%nat) false false,
                       mkReopenFrame 0 0%nat,
                       mkWorld [ELock; EFactory 0%nat; EConnect 0%nat None;
                                ESetInner 0%nat; EUnlock; EGo task_run] 1 0))
    by (vm_compute; reflexivity).
  split; [exact Hc|].
  match goal with
  | |- ?R = Some (Ok (?B, Some ?F, ?W)) /\ _ =>
      assert (Hr : R = Some (Ok (B, Some F, W))) by (vm_compute; reflexivity);
      split; [exact Hr|];
      split; [reflexivity|];
      destruct (reopen_run_watches_the_current_inner
                  Scenario.always_up 1 1 [rcase_ticker; rcase_closeChan]
                  newReopenIntervalConn _ B _ F Scenario.w0 _ W None
                  Scenario.ping Hc Hr) as (Hin & _ & Hsend & _);
      split; [exact Hin | exact Hsend]
  end.
Defined.

(** ** Connecting loops: fuel and the first attempt that succeeds *)

Section FirstSuccess.

Variable ConnectFunc : HandlerId -> option error.
Variable calculator : Z -> Duration.

Local Abbreviation bloop := (newConnHandler_loop ConnectFunc calculator).
Local Abbreviation rloop := (newConnectionHandler ConnectFunc).

(** The handlers created from [base] on fail to connect, up to the [k]-th
    excluded. *)
Local Abbreviation fail_before base k :=
  (forall j, (j < k)%nat -> ConnectFunc (base + j)%nat <> None).

Lemma fail_before_first (base k : nat) :
  fail_before base (S k) -> exists e, ConnectFunc base = Some e.
Proof.
  intros H. specialize (H O ltac:(lia)). rewrite Nat.add_0_r in H.
  destruct (ConnectFunc base) as [e|]; [eauto | congruence].
Qed.

Lemma fail_before_shift (base k : nat) :
  fail_before base (S k) -> fail_before (S base) k.
Proof.
  intros H j Hj.
  replace (S base + j)%nat with (base + S j)%nat by lia.
  apply H. lia.
Qed.

Lemma newConnHandler_loop_more_fuel (fuel : nat) :
  forall fuel' a w r,
    (fuel <= fuel')%nat -> bloop fuel a w = Some r -> bloop fuel' a w = Some r.
Proof.
  induction fuel as [|fuel IH]; intros fuel' a w r Hle H; [discriminate|].
  destruct fuel' as [|fuel']; [lia|].
  cbn [newConnHandler_loop] in *.
  destruct (newConnHandler_body ConnectFunc calculator a w)
    as [[a' [ch|]] w1]; [exact H|].
  apply IH; [lia | exact H].
Qed.

Lemma newConnHandler_loop_first_success (k : nat) :
  forall a w,
    fail_before (created w) k ->
    ConnectFunc (created w + k)%nat = None ->
    exists w', bloop (S k) a w = Some ((created w + k)%nat, w').
Proof.
  induction k as [|k IH]; intros a w Hf Hk.
  - rewrite Nat.add_0_r in *. cbn [newConnHandler_loop].
    rewrite (newConnHandler_body_ok ConnectFunc calculator a w Hk). eauto.
  - destruct (fail_before_first _ _ Hf) as (e & He).
    destruct (newConnHandler_body_continue ConnectFunc calculator a w e He)
      as (w1 & Hb & Hc).
    destruct (IH (Int64.add a 1) w1) as (w' & Hl).
    + rewrite Hc. now apply fail_before_shift.
    + rewrite Hc. now replace (S (created w) + k)%nat
        with (created w + S k)%nat by lia.
    + exists w'.
      change (bloop (S (S k)) a w)
        with (match newConnHandler_body ConnectFunc calculator a w with
              | (_, Some ch, w') => Some (ch, w')
              | (attempts', None, w') => bloop (S k) attempts' w'
              end).
      rewrite Hb, Hl, Hc.
      now replace (S (created w) + k)%nat with (created w + S k)%nat by lia.
Qed.

Lemma newConnHandler_loop_out_of_fuel (fuel : nat) :
  forall k a w,
    (fuel <= k)%nat -> fail_before (created w) k -> bloop fuel a w = None.
Proof.
  induction fuel as [|fuel IH]; intros k a w Hle Hf; [reflexivity|].
  destruct k as [|k]; [lia|].
  destruct (fail_before_first _ _ Hf) as (e & He).
  destruct (newConnHandler_body_continue ConnectFunc calculator a w e He)
    as (w1 & Hb & Hc).
  cbn [newConnHandler_loop]. rewrite Hb.
  apply (IH k); [lia|]. rewrite Hc. now apply fail_before_shift.
Qed.

Lemma newConnectionHandler_more_fuel (fuel : nat) :
  forall fuel' w r,
    (fuel <= fuel')%nat -> rloop fuel w = Some r -> rloop fuel' w = Some r.
Proof.
  induction fuel as [|fuel IH]; intros fuel' w r Hle H; [discriminate|].
  destruct fuel' as [|fuel']; [lia|].
  rewrite newConnectionHandler_unfold in *.
  destruct (newConnectionHandler_body ConnectFunc w) as [[conn|] w1];
    [exact H|].
  apply IH; [lia | exact H].
Qed.

Lemma newConnectionHandler_first_success (k : nat) :
  forall w,
    fail_before (created w) k ->
    ConnectFunc (created w + k)%nat = None ->
    exists w', rloop (S k) w = Some ((created w + k)%nat, w').
Proof.
  induction k as [|k IH]; intros w Hf Hk; rewrite newConnectionHandler_unfold.
  - rewrite Nat.add_0_r in *.
    rewrite (newConnectionHandler_body_ok ConnectFunc w Hk). eauto.
  - destruct (fail_before_first _ _ Hf) as (e & He).
    rewrite (newConnectionHandler_body_fail ConnectFunc w e He).
    match goal with
    | |- exists w', rloop _ ?W1 = _ => destruct (IH W1) as (w' & Hl)
    end.
    + cbn [created]. now apply fail_before_shift.
    + cbn [created]. now replace (S (created w) + k)%nat
        with (created w + S k)%nat by lia.
    + exists w'. rewrite Hl. cbn [created].
      now replace (S (created w) + k)%nat with (created w + S k)%nat by lia.
Qed.

Lemma newConnectionHandler_out_of_fuel (fuel : nat) :
  forall k w,
    (fuel <= k)%nat -> fail_before (created w) k -> rloop fuel w = None.
Proof.
  induction fuel as [|fuel IH]; intros k w Hle Hf; [reflexivity|].
  destruct k as [|k]; [lia|].
  destruct (fail_before_first _ _ Hf) as (e & He).
  rewrite newConnectionHandler_unfold.
  rewrite (newConnectionHandler_body_fail ConnectFunc w e He).
  apply (IH k); [lia|]. cbn [created]. now apply fail_before_shift.
Qed.

(** C8: on the backoff handler and on the reopen-interval handler, Connect
    never returns a non-nil error; a failed connection attempt is retried
    inside the call and not surfaced. When the first k attempts fail and
    the next one succeeds, Connect has not returned as long as only k or
    fewer attempts have been made, and once the attempt after them is made
    it returns nil, having made exactly those k failed attempts (each with
    its sleep, on the backoff handler, or its Close, on the reopen-interval
    handler) and the successful one, installed the handler that connected
    as the inner handler and spawned run. *)
Theorem Connect_retries_until_an_attempt_succeeds
    (k : nat) (w : World)
    (b : backoffConnectionHandler) (r : reopenIntervalConnectionHandler) :
  fail_before (created w) k ->
  ConnectFunc (created w + k)%nat = None ->
  Z.of_nat (S k) < Int64.max_int ->
  let ch := (created w + k)%nat in
  exists wb wr,
    (forall fuel, (fuel <= k)%nat ->
       backoff_Connect ConnectFunc calculator fuel b w = None) /\
    (forall fuel, (k < fuel)%nat ->
       backoff_Connect ConnectFunc calculator fuel b w =
       Some (None,
             mkSystem (with_inner b ch)
                      (Some (mkFrame AtSelect ch 0 (now wb) ch)) wb)) /\
    trace wb =
      trace w ++
      flat_map (backoff_failed_pass ConnectFunc calculator (created w) 0)
               (seq 0 k) ++
      [EFactory ch; EConnect ch None; EGo task_run] /\
    (forall fuel, (fuel <= k)%nat ->
       reopen_Connect ConnectFunc fuel r w = None) /\
    (forall fuel, (k < fuel)%nat ->
       reopen_Connect ConnectFunc fuel r w =
       Some (None, reopen_with_inner r ch, mkReopenFrame 0 ch, wr)) /\
    trace wr =
      trace w ++ [ELock] ++
      flat_map (reopen_failed_pass ConnectFunc (created w)) (seq 0 k) ++
      [EFactory ch; EConnect ch None; ESetInner ch; EUnlock; EGo task_run] /\
    (forall fuel err s,
       backoff_Connect ConnectFunc calculator fuel b w = Some (err, s) ->
       err = None) /\
    (forall fuel err r' f' w',
       reopen_Connect ConnectFunc fuel r w = Some (err, r', f', w') ->
       err = None).
Proof.
  intros Hf Hk Hbound ch.
  destruct (newConnHandler_loop_first_success k 0 w Hf Hk) as (w1 & Hl1).
  pose proof (newConnHandler_loop_trace ConnectFunc calculator (S k) 0 w
                ch w1 ltac:(unfold Int64.min_int; lia) ltac:(lia) Hl1)
    as (k1 & _ & Hch1 & _ & _ & _ & Ht1).
  assert (k1 = k) by (subst ch; lia). subst k1.
  set (wl := snd (WorldMonad.emit ELock w)).
  destruct (newConnectionHandler_first_success k wl Hf Hk) as (w2 & Hl2).
  pose proof (newConnectionHandler_full ConnectFunc (S k) wl ch w2 Hl2)
    as (k2 & _ & Hch2 & _ & _ & _ & _ & Ht2).
  assert (k2 = k) by (subst ch wl; cbn in Hch2; lia). subst k2.
  exists (mkWorld (trace w1 ++ [EGo task_run]) (created w1) (now w1)),
         (mkWorld (trace w2 ++ [ESetInner ch; EUnlock; EGo task_run])
                  (created w2) (now w2)).
  split; [|split; [|split; [|split; [|split; [|split; [|split]]]]]].
  - intros fuel Hle. unfold backoff_Connect, newConnHandler.
    now rewrite (newConnHandler_loop_out_of_fuel fuel k 0 w Hle Hf).
  - intros fuel Hlt. unfold backoff_Connect, newConnHandler.
    rewrite (newConnHandler_loop_more_fuel (S k) fuel 0 w _
               ltac:(lia) Hl1).
    reflexivity.
  - cbn [trace]. rewrite Ht1, <- !app_assoc. reflexivity.
  - intros fuel Hle. unfold reopen_Connect. fold wl.
    now rewrite (newConnectionHandler_out_of_fuel fuel k wl Hle Hf).
  - intros fuel Hlt. unfold reopen_Connect. fold wl.
    rewrite (newConnectionHandler_more_fuel (S k) fuel wl _
               ltac:(lia) Hl2).
    unfold WorldMonad.bind, WorldMonad.emit. cbn.
    now rewrite <- !app_assoc.
  - cbn [trace]. rewrite Ht2. subst wl. cbn. rewrite <- !app_assoc.
    reflexivity.
  - intros fuel err s H. unfold backoff_Connect in H.
    destruct (newConnHandler ConnectFunc calculator fuel w) as [[c0 w0]|];
      [|discriminate].
    cbn in H. now inversion H.
  - intros fuel err r' f' w' H. unfold reopen_Connect in H.
    destruct (newConnectionHandler ConnectFunc fuel _) as [[c0 w0]|];
      [|discriminate].
    now inversion H.
Qed.

(** X20: when the current inner handler closes unexpectedly, [run] opens a
    replacement, retrying until a handler connects, installs it under the
    write lock and watches its close channel: with the first k attempts
    failing and the next one succeeding, the turn is not over as long as
    only k or fewer attempts have been made, and once the attempt after
    them is made it ends with that handler installed. It does not call
    [Close] on the handler that closed, nor on any handler other than the
    ones that failed to connect in this turn. *)
Theorem reopen_unexpected_close_installs_replacement
    (k : nat) (b : reopenIntervalConnectionHandler) (f : reopen_frame)
    (w : World) :
  fail_before (created w) k ->
  ConnectFunc (created w + k)%nat = None ->
  let new := (created w + k)%nat in
  exists w',
    (forall fuel, (fuel <= k)%nat ->
       reopen_run_select ConnectFunc fuel rcase_closeChan b f w = None) /\
    (forall fuel, (k < fuel)%nat ->
       reopen_run_select ConnectFunc fuel rcase_closeChan b f w =
       Some (Ok (reopen_with_inner b new,
                 Some (mkReopenFrame (Int64.add (connCount f) 1) new),
                 w'))) /\
    trace w' =
      trace w ++
      flat_map (reopen_failed_pass ConnectFunc (created w)) (seq 0 k) ++
      [EFactory new; EConnect new None; ELock; ESetInner new; EUnlock] /\
    closes (trace w') =
      closes (trace w) ++ map (fun j => (created w + j)%nat) (seq 0 k).
Proof.
  intros Hf Hk new.
  destruct (newConnectionHandler_first_success k w Hf Hk) as (w1 & Hl).
  pose proof (newConnectionHandler_full ConnectFunc (S k) w new w1 Hl)
    as (k1 & _ & Hn & _ & _ & _ & _ & Ht).
  assert (k1 = k) by (subst new; lia). subst k1.
  exists (mkWorld (trace w1 ++ [ELock; ESetInner new; EUnlock])
                  (created w1) (now w1)).
  split; [|split; [|split]].
  - intros fuel Hle. unfold reopen_run_select.
    now rewrite (newConnectionHandler_out_of_fuel fuel k w Hle Hf).
  - intros fuel Hlt. unfold reopen_run_select.
    rewrite (newConnectionHandler_more_fuel (S k) fuel w _ ltac:(lia) Hl).
    unfold WorldMonad.bind, WorldMonad.emit. cbn.
    now rewrite <- !app_assoc.
  - cbn [trace]. rewrite Ht, <- !app_assoc. reflexivity.
  - cbn [trace]. rewrite Ht, !closes_app, closes_reopen_failed. cbn.
    now rewrite !app_nil_r.
Qed.

End FirstSuccess.

Lemma Connect_retries_until_an_attempt_succeeds_witness :
  Scenario.fail_twice (created Scenario.w0 + 2)%nat = None /\
  exists wb wr,
    backoff_Connect Scenario.fail_twice Scenario.two_seconds_each 2
                    newBackoffConnectionHandler Scenario.w0 = None /\
    backoff_Connect Scenario.fail_twice Scenario.two_seconds_each 3
                    newBackoffConnectionHandler Scenario.w0 =
      Some (None,
            mkSystem (with_inner newBackoffConnectionHandler 2%nat)
                     (Some (mkFrame AtSelect 2%nat 0 (now wb) 2%nat)) wb) /\
    sleeps (trace wb) = [2 * Second; 4 * Second] /\
    reopen_Connect Scenario.fail_twice 2 newReopenIntervalConn Scenario.w0
      = None /\
    reopen_Connect Scenario.fail_twice 3 newReopenIntervalConn Scenario.w0 =
      Some (None, reopen_with_inner newReopenIntervalConn 2%nat,
            mkReopenFrame 0 2%nat, wr) /\
    closes (trace wr) = [0%nat; 1%nat].
Proof.
  split; [reflexivity|].
  destruct (Connect_retries_until_an_attempt_succeeds
              Scenario.fail_twice Scenario.two_seconds_each 2 Scenario.w0
              newBackoffConnectionHandler newReopenIntervalConn)
    as (wb & wr & Hb0 & Hb1 & Htb & Hr0 & Hr1 & Htr & _).
  - intros j Hj. destruct j as [|[|j]]; [discriminate | discriminate | lia].
  - reflexivity.
  - unfold Int64.max_int. cbn. lia.
  - exists wb, wr.
    split; [apply Hb0; lia|]. split; [apply Hb1; lia|].
    split; [rewrite Htb; reflexivity|].
    split; [apply Hr0; lia|]. split; [apply Hr1; lia|].
    rewrite Htr. reflexivity.
Defined.

Lemma reopen_unexpected_close_installs_replacement_witness :
  Scenario.up_down_up (created ReopenScenario.one_created + 1)%nat = None /\
  exists w',
    reopen_run_select Scenario.up_down_up 1 rcase_closeChan
      ReopenScenario.first_inner (mkReopenFrame 0 0%nat)
      ReopenScenario.one_created = None /\
    reopen_run_select Scenario.up_down_up 2 rcase_closeChan
      ReopenScenario.first_inner (mkReopenFrame 0 0%nat)
      ReopenScenario.one_created =
      Some (Ok (reopen_with_inner ReopenScenario.first_inner 2%nat,
                Some (mkReopenFrame (Int64.add 0 1) 2%nat), w')) /\
    trace w' =
      [EFactory 1%nat; EConnect 1%nat (Some Scenario.boom); EClose 1%nat;
       EFactory 2%nat; EConnect 2%nat None;
       ELock; ESetInner 2%nat; EUnlock] /\
    closes (trace w') = [1%nat].
Proof.
  split; [reflexivity|].
  destruct (reopen_unexpected_close_installs_replacement
              Scenario.up_down_up 1 ReopenScenario.first_inner
              (mkReopenFrame 0 0%nat) ReopenScenario.one_created)
    as (w' & H0 & H1 & Ht & Hc).
  - intros j Hj. destruct j as [|j]; [discriminate | lia].
  - reflexivity.
  - exists w'.
    split; [apply H0; lia|]. split; [apply H1; lia|].
    split; [rewrite Ht; reflexivity | rewrite Hc; reflexivity].
Defined.
